(** * CyberElites-Resources: certificate, e-mail and QR-code scripts

    A shallow embedding of the Python scripts

      - [Utilities/utils.py]
      - [Certificate_Generator/certificate_generator.py]
      - [Email_Sender/send_email.py]
      - [QRCode_Generator/qrcode_generator.py]

    together with the properties their specification states about them.

    Conventions of the embedding.

      - A Python [str] is a [list ascii]; the text handled is ASCII, and the
        character classes below are the ones Python uses below code point
        128.  Files opened in text mode are held with their line ends
        already translated to ["\n"] (universal newlines).
      - The process environment is a record [world]: the file system (a
        finite map from paths to contents), the lines still to be typed on
        standard input, the log written through [logging], the mails handed
        to the SMTP server and the replies the server is going to give.
      - A function that can call [exit] or let an exception escape returns a
        [result]: [Return v], [Exit code] or [Raise e]; it is run as a state
        transformer over [world].  [Diverge] is the result of a loop that
        was given too little fuel; no script produces it (see
        [generate_qrcode_terminates]).
      - [sorted] is Python's stable sort; it is embedded as a stable
        insertion sort, which yields the same list. *)

From Stdlib Require Import Ascii String List ZArith NArith Lia Bool.
From Stdlib Require Import Sorting.Sorted Sorting.Permutation.
From Stdlib Require Import DecimalString DecimalNat.
From stdpp Require Import gmap strings list fin_maps.

Import ListNotations.
Local Open Scope list_scope.

(** ** Python strings *)

Module Py.

Abbreviation str := (list ascii).

(** String literals of the scripts. *)
Definition lit (s : string) : str := list_ascii_of_string s.

Definition code (c : ascii) : N := N_of_ascii c.

(** [str.isspace] on one ASCII character: TAB, LF, VT, FF, CR, the four
    separators FS GS RS US, and the space. *)
Definition isspace (c : ascii) : bool :=
  let n := code c in
  ((9 <=? n) && (n <=? 13) || (28 <=? n) && (n <=? 32))%N.

Definition isupper (c : ascii) : bool :=
  let n := code c in ((65 <=? n) && (n <=? 90))%N.

Definition islower (c : ascii) : bool :=
  let n := code c in ((97 <=? n) && (n <=? 122))%N.

(** A cased character, as [str.title] understands it. *)
Definition iscased (c : ascii) : bool := isupper c || islower c.

Definition upper_char (c : ascii) : ascii :=
  if islower c then ascii_of_N (code c - 32) else c.

Definition lower_char (c : ascii) : ascii :=
  if isupper c then ascii_of_N (code c + 32) else c.

(** [s.lower()] *)
Definition lower (s : str) : str := map lower_char s.

(** [s.title()]: a character that follows a cased character is lowered,
    any other one is put in title case. *)
Fixpoint title_from (previous_is_cased : bool) (s : str) : str :=
  match s with
  | [] => []
  | c :: s' =>
      (if previous_is_cased then lower_char c else upper_char c)
        :: title_from (iscased c) s'
  end.

Definition title (s : str) : str := title_from false s.

(** [s.lstrip()], [s.rstrip()], [s.strip()] *)
Fixpoint lstrip (s : str) : str :=
  match s with
  | [] => []
  | c :: s' => if isspace c then lstrip s' else s
  end.

Fixpoint rstrip (s : str) : str :=
  match s with
  | [] => []
  | c :: s' =>
      match rstrip s' with
      | [] => if isspace c then [] else [c]
      | r => c :: r
      end
  end.

Definition strip (s : str) : str := lstrip (rstrip s).

(** Truth value of a string: [if s:] *)
Definition truthy (s : str) : bool :=
  match s with [] => false | _ :: _ => true end.

Definition eqb_char (a b : ascii) : bool := Ascii.eqb a b.

(** [s.split(sep)] for a one-character separator. *)
Fixpoint split_on (sep : ascii) (s : str) : list str :=
  match s with
  | [] => [[]]
  | c :: s' =>
      if eqb_char c sep then [] :: split_on sep s'
      else match split_on sep s' with
           | [] => [[c]]
           | f :: fs => (c :: f) :: fs
           end
  end.

(** [s.split()]: the maximal runs of characters that are not white space. *)
Fixpoint split_ws (s : str) : list str :=
  match s with
  | [] => []
  | c :: s' =>
      if isspace c then split_ws s'
      else match s' with
           | [] => [[c]]
           | c' :: _ =>
               if isspace c' then [c] :: split_ws s'
               else match split_ws s' with
                    | [] => [[c]]
                    | w :: ws => (c :: w) :: ws
                    end
           end
  end.

(** [sep.join(parts)] *)
Fixpoint join (sep : str) (parts : list str) : str :=
  match parts with
  | [] => []
  | [p] => p
  | p :: ps => p ++ sep ++ join sep ps
  end.

(** [s.count(c)] for a one-character pattern. *)
Definition count (c : ascii) (s : str) : nat :=
  length (filter (fun x => eqb_char x c) s).

(** [s.replace(old, new)] for a pattern [old] that is not empty; [skip]
    counts the characters of a match still to be dropped. *)
Fixpoint replace_from (skip : nat) (old new s : str) : str :=
  match s with
  | [] => []
  | c :: s' =>
      match skip with
      | S k => replace_from k old new s'
      | O =>
          if bool_decide (take (length old) s = old)
          then new ++ replace_from (length old - 1) old new s'
          else c :: replace_from 0 old new s'
      end
  end.

Definition replace_str (old new s : str) : str := replace_from 0 old new s.

(** [s.replace(a, b)] for one-character [a] and [b]. *)
Definition replace (a b : ascii) (s : str) : str :=
  map (fun c => if eqb_char c a then b else c) s.

Definition startswith (p s : str) : bool :=
  bool_decide (take (length p) s = p).

Definition endswith (p s : str) : bool :=
  bool_decide (drop (length s - length p) s = p).

(** [os.path.basename(path)] of [posixpath]: what follows the last slash. *)
Definition basename (path : str) : str :=
  List.last (split_on "/"%char path) [].

(** [c in s] *)
Definition contains (c : ascii) (s : str) : bool :=
  existsb (fun x => eqb_char x c) s.

(** [str(n)] for a natural number. *)
Definition str_of_nat (n : nat) : str :=
  lit (NilEmpty.string_of_uint (Nat.to_uint n)).

(** Comparison of strings, [a < b]: lexicographic on code points. *)
Fixpoint ltb (a b : str) : bool :=
  match a, b with
  | _, [] => false
  | [], _ :: _ => true
  | x :: a', y :: b' =>
      if (code x <? code y)%N then true
      else if (code y <? code x)%N then false
      else ltb a' b'
  end.

(** [a <= b] *)
Definition le (a b : str) : Prop := ltb b a = false.

(** [sorted(l, key=key)]: stable, ascending in [key]. *)
Section Sorted.
Context {A : Type} (key : A -> str).

Fixpoint insert_by (x : A) (l : list A) : list A :=
  match l with
  | [] => [x]
  | y :: ys =>
      if ltb (key y) (key x) then y :: insert_by x ys else x :: y :: ys
  end.

Fixpoint sorted_by (l : list A) : list A :=
  match l with
  | [] => []
  | x :: xs => insert_by x (sorted_by xs)
  end.
End Sorted.

(** [sorted(l)] *)
Definition sorted (l : list str) : list str := sorted_by (fun s => s) l.

(** [f.readlines()]: the lines of a text, each with its line end. *)
Definition newline : ascii := "010"%char.

Fixpoint readlines (s : str) : list str :=
  match s with
  | [] => []
  | c :: s' =>
      if eqb_char c newline then [c] :: readlines s'
      else match readlines s' with
           | [] => [[c]]
           | l :: ls => (c :: l) :: ls
           end
  end.

End Py.

(** ** The process environment *)

Import Py.

(** What a file holds.  Text files are read with [open(path, "r")]; the
    other contents are only produced or attached, never parsed. *)
Inductive qr_image : Type :=
  | StandardQR (bg_color : str) (text : str)
  | DotsQR (bg_color : str) (text : str)
  | CenterImage (logo : str) (image : qr_image)
  | Titled (title font_file : str) (image : qr_image).

Inductive content : Type :=
  | Text (data : str)
  | Binary (data : str)
  | Overlay (name : str)
  | Certificate (template : str) (name : str)
  | Picture (image_format : str) (image : qr_image).

Inductive exn : Type :=
  | FileNotFoundError
  | UnicodeDecodeError
  | IndexError
  | KeyError
  | NameError
  | TypeError
  | AttributeError
  | ValueError
  | EOFError
  | KeyboardInterrupt
  | SMTPAuthenticationError
  | gaierror
  | SMTPException.

(** One line typed at a prompt, or Ctrl-C pressed instead. *)
Inductive keyboard : Type :=
  | Line (text : str)
  | CtrlC.

(** What happens to one connection of [send_email] to the SMTP server: the
    message is delivered, or the [smtplib] call raises. *)
Inductive smtp_reply : Type :=
  | Delivered
  | Fails (error : exn).

Record mail : Type := Mail {
  mail_to : str;
  mail_subject : str;
  mail_body : str;
  mail_attachments : list (str * content)
}.

(** The records [logging] writes to the log file. *)
Inductive log_entry : Type :=
  | LogEmailSent (recipient_email : str)
  | LogAttachmentNotFound (attachment_path : str)
  | LogFailedToSend (recipient_email : str)
  | LogRowError (row_index : nat) (error : exn)
  | LogCsvNotFound (csv_file_path : str)
  | LogInvalidCsv
  | LogUnexpectedError (error : exn)
  | LogTemplateError (error : exn).

Record world : Type := World {
  files : gmap str content;
  stdin : list keyboard;
  log : list log_entry;
  outbox : list mail;
  smtp : nat -> smtp_reply;
  smtp_calls : nat
}.

Definition set_files (f : gmap str content -> gmap str content) (w : world) : world :=
  World (f (files w)) (stdin w) (log w) (outbox w) (smtp w) (smtp_calls w).

Definition set_stdin (l : list keyboard) (w : world) : world :=
  World (files w) l (log w) (outbox w) (smtp w) (smtp_calls w).

Definition add_log (e : log_entry) (w : world) : world :=
  World (files w) (stdin w) (log w ++ [e]) (outbox w) (smtp w) (smtp_calls w).

Definition add_mail (m : mail) (w : world) : world :=
  World (files w) (stdin w) (log w) (outbox w ++ [m]) (smtp w) (smtp_calls w).

Definition next_smtp (w : world) : world :=
  World (files w) (stdin w) (log w) (outbox w) (smtp w) (S (smtp_calls w)).

(** ** Results and the monad of the scripts *)

Inductive result (A : Type) : Type :=
  | Return (value : A)
  | Exit (status : Z)
  | Raise (error : exn)
  | Diverge.
Arguments Return {A} value.
Arguments Exit {A} status.
Arguments Raise {A} error.
Arguments Diverge {A}.

Definition prog (A : Type) : Type := world -> result A * world.

Definition ret {A} (v : A) : prog A := fun w => (Return v, w).

Definition bind {A B} (c : prog A) (k : A -> prog B) : prog B :=
  fun w =>
    match c w with
    | (Return v, w') => k v w'
    | (Exit n, w') => (Exit n, w')
    | (Raise e, w') => (Raise e, w')
    | (Diverge, w') => (Diverge, w')
    end.

Notation "x <- c ;; k" := (bind c (fun x => k))
  (at level 100, c at next level, k at level 200, right associativity).
Notation "c ;;; k" := (bind c (fun _ => k))
  (at level 100, k at level 200, right associativity).

(** [exit(n)] raises [SystemExit], which no [except Exception] clause
    catches; a bare [except:] would, and none of the scripts encloses a call
    of [exit]. *)
Definition exit {A} (n : Z) : prog A := fun w => (Exit n, w).

Definition raise {A} (e : exn) : prog A := fun w => (Raise e, w).

(** [try: c  except <some exceptions>: handler] *)
Definition try_except {A} (c : prog A) (handler : exn -> option (prog A)) : prog A :=
  fun w =>
    match c w with
    | (Raise e, w') =>
        match handler e with
        | Some h => h w'
        | None => (Raise e, w')
        end
    | r => r
    end.

Definition modify (f : world -> world) : prog unit := fun w => (Return tt, f w).

Definition logging (e : log_entry) : prog unit := modify (add_log e).

(** ** Files *)

(** [os.path.join(a, b)] of [posixpath]. *)
Definition os_path_join (a b : str) : str :=
  if startswith (lit "/") b then b
  else if negb (truthy a) || endswith (lit "/") a then a ++ b
  else a ++ lit "/" ++ b.

(** [os.path.exists(path)] *)
Definition os_path_exists (path : str) : prog bool :=
  fun w => (Return (bool_decide (is_Some (files w !! path))), w).

(** [with open(path, "r") as f: f.read()] *)
Definition read_text (path : str) : prog str :=
  fun w =>
    match files w !! path with
    | Some (Text data) => (Return data, w)
    | Some _ => (Raise UnicodeDecodeError, w)
    | None => (Raise FileNotFoundError, w)
    end.

(** [with open(path, "rb") as f: f.read()] *)
Definition read_bytes (path : str) : prog content :=
  fun w =>
    match files w !! path with
    | Some c => (Return c, w)
    | None => (Raise FileNotFoundError, w)
    end.

(** [with open(path, "w") as f: f.write(data)], and the writes of the PDF
    and image libraries.  The directories of the scripts are created at
    start-up, and opening a file for writing is taken to succeed. *)
Definition write_file (path : str) (c : content) : prog unit :=
  modify (set_files (insert path c)).

(** [except Exception] does not catch [KeyboardInterrupt]. *)
Definition is_Exception (e : exn) : bool :=
  match e with KeyboardInterrupt => false | _ => true end.

Definition except_Exception {A} (h : exn -> prog A) (e : exn) : option (prog A) :=
  if is_Exception e then Some (h e) else None.

(** A bare [except:] *)
Definition except_any {A} (h : prog A) (e : exn) : option (prog A) := Some h.

Definition except_only {A} (which : exn -> bool) (h : prog A) (e : exn) : option (prog A) :=
  if which e then Some h else None.

Definition is_FileNotFoundError (e : exn) : bool :=
  match e with FileNotFoundError => true | _ => false end.

Definition is_KeyboardInterrupt (e : exn) : bool :=
  match e with KeyboardInterrupt => true | _ => false end.

(** [UnicodeDecodeError] is a subclass of [ValueError]. *)
Definition is_ValueError (e : exn) : bool :=
  match e with ValueError | UnicodeDecodeError => true | _ => false end.

Definition is_UnicodeDecodeError (e : exn) : bool :=
  match e with UnicodeDecodeError => true | _ => false end.

Definition nl : str := [newline].

Definition dquote : ascii := "034"%char.

(** ** Console input *)

(** [input()] *)
Definition input : prog str :=
  fun w =>
    match stdin w with
    | [] => (Raise EOFError, w)
    | Line text :: rest => (Return text, set_stdin rest w)
    | CtrlC :: rest => (Raise KeyboardInterrupt, set_stdin rest w)
    end.

Definition isdigit (c : ascii) : bool :=
  let n := code c in ((48 <=? n) && (n <=? 57))%N.

(** The digits of a literal of [int]: single underscores may separate them. *)
Fixpoint int_digits (acc : Z) (after_digit : bool) (s : str) : option Z :=
  match s with
  | [] => if after_digit then Some acc else None
  | c :: s' =>
      if isdigit c then int_digits (10 * acc + (Z.of_N (code c) - 48)) true s'
      else if eqb_char c "_"%char && after_digit then int_digits acc false s'
      else None
  end.

(** [int(s)]: [None] stands for [ValueError]. *)
Definition int (s : str) : option Z :=
  match strip s with
  | c :: s' =>
      if eqb_char c "-"%char then Z.opp <$> int_digits 0 false s'
      else if eqb_char c "+"%char then int_digits 0 false s'
      else int_digits 0 false (c :: s')
  | [] => None
  end.

(** [os.listdir(directory)], restricted to the files: the names of the
    files that lie directly in [directory]. *)
Definition os_listdir (directory : str) : prog (list str) :=
  fun w =>
    let prefix := directory ++ lit "/" in
    let name_in path :=
      if startswith prefix path then
        let name := drop (length prefix) path in
        if contains "/"%char name then None else Some name
      else None in
    (Return (omap name_in (map fst (map_to_list (files w)))), w).

(** ** Utilities/utils.py *)

Module Utils.

(** [sort_wordlist(file_path)], utils.py lines 497-529. *)
Definition sort_wordlist (file_path : str) : prog (list str) :=
  names <- try_except
             (data <- read_text file_path ;; ret (readlines data))
             (except_any (exit 1)) ;;
  let sorted_names :=
    sorted (map (fun name => strip (title name))
                (filter (fun name => truthy (strip name)) names)) in
  try_except
    (write_file file_path (Text (join nl sorted_names)))
    (except_any (exit 1)) ;;;
  ret sorted_names.

(** [forbidden_chars]: the set of the characters < > ? | / \ : * and the
    double quote. *)
Definition forbidden_chars : str := lit "<>" ++ [dquote] ++ lit "?|/\:*".

(** [read_wordlist(file_path)], utils.py lines 367-401. *)
Definition read_wordlist (file_path : str) : prog (list str) :=
  names <- sort_wordlist file_path ;;
  let line_error :=
    existsb (fun line => existsb (fun char => contains char forbidden_chars) line) names in
  if line_error then exit 1
  else if negb (bool_decide (names <> [])) then exit 1
  else ret names.

(** The sort key of [sort_csv]: [row.split(',')[1].strip()], which raises
    [IndexError] on a row without a comma. *)
Definition second_field (row : str) : option str :=
  match split_on ","%char row with
  | _ :: field :: _ => Some (strip field)
  | _ => None
  end.

(** [sorted(data_rows, key=...)]: the keys of all rows are computed first,
    so one failing key makes the whole call raise. *)
Definition sorted_by_second_field (data_rows : list str) : prog (list str) :=
  match mapM second_field data_rows with
  | Some keys => ret (map snd (sorted_by fst (zip keys data_rows)))
  | None => raise IndexError
  end.

(** [sort_csv(file_path)], utils.py lines 446-491. *)
Definition sort_csv (file_path : str) : prog unit :=
  parts <- try_except
             (data <- read_text file_path ;;
              match readlines data with
              | [] => raise IndexError
              | first :: rows =>
                  ret (strip first, rows,
                       map strip (filter (fun row => truthy (strip row)) rows))
              end)
             (except_Exception (fun _ => exit 1)) ;;
  let '(header, rows, data_rows) := parts in
  match data_rows with
  | [] => exit 1
  | first_row :: _ =>
      sorted_data <-
        (if Nat.eqb (count ","%char first_row) 1
         then ret (sorted (map strip (filter (fun row => truthy (strip row)) rows)))
         else sorted_by_second_field data_rows) ;;
      let sorted_rows := header :: sorted_data in
      try_except
        (write_file file_path (Text (join nl sorted_rows)))
        (except_Exception (fun _ => exit 1))
  end.

(** [get_files(directory, extension)], utils.py lines 255-276. *)
Definition get_files (directory extension : str) : prog (list str) :=
  listing <- try_except (os_listdir directory)
                        (except_only is_FileNotFoundError (exit 1)) ;;
  ret (filter (fun file => endswith (lit "." ++ lower extension) file) listing).

(** [select_font(fonts_directory_path)], utils.py lines 406-441. *)
Definition select_font (fonts_directory_path : str) : prog str :=
  font_files <- get_files fonts_directory_path (lit "TTF") ;;
  let truetype_font_files := sorted font_files in
  if Nat.ltb (length truetype_font_files) 1 then exit 1
  else
    try_except
      (text <- input ;;
       match int text with
       | None => raise ValueError
       | Some font =>
           match (if (1 <=? font)%Z
                  then truetype_font_files !! Z.to_nat (font - 1)
                  else None) with
           | Some font_file => ret font_file
           | None => raise KeyError
           end
       end)
      (except_any (exit 1)).

End Utils.

(** ** Certificate_Generator/certificate_generator.py *)

Module CertificateGenerator.

(** The module-level paths set by [__main__], and the arguments of
    [create_certificate] that name files. *)
Record paths : Type := Paths {
  template_file_path : str;
  wordlist_file_path : str;
  font_path : str;
  TEMPORARY_DIRECTORY_PATH : str;
  OUTPUT_DIRECTORY_PATH : str
}.

(** [read_wordlist(file_path)], certificate_generator.py lines 98-115: the
    script's own reader, which only reads. *)
Definition read_wordlist (file_path : str) : prog (list str) :=
  try_except
    (data <- read_text file_path ;; ret (readlines data))
    (except_only is_FileNotFoundError (ret [])).

(** The name of the file written for [name]:
    [f"{OUTPUT_DIRECTORY_PATH}/{filename}_certificate.pdf"] with
    [filename = "_".join(name.split())]. *)
Definition certificate_filename (name : str) : str :=
  join (lit "_") (split_ws name) ++ lit "_certificate.pdf".

Definition certificate_path (P : paths) (name : str) : str :=
  OUTPUT_DIRECTORY_PATH P ++ lit "/" ++ certificate_filename name.

Definition tmp_file (P : paths) : str :=
  os_path_join (TEMPORARY_DIRECTORY_PATH P) (lit "tmp_certificate.pdf").

(** The body of the loop of [create_certificate] for one line that is not
    blank, lines 146-178. *)
Definition write_certificate (P : paths) (name : str) : prog unit :=
  write_file (tmp_file P) (Overlay name) ;;;
  _ <- read_bytes (tmp_file P) ;;
  _ <- read_bytes (template_file_path P) ;;
  write_file (certificate_path P name) (Certificate (template_file_path P) name).

Fixpoint for_each_name (P : paths) (wordlist_contents : list str) : prog unit :=
  match wordlist_contents with
  | [] => ret tt
  | name :: rest =>
      let name := strip name in
      if negb (truthy name) then for_each_name P rest
      else write_certificate P name ;;; for_each_name P rest
  end.

(** [create_certificate(...)], certificate_generator.py lines 119-178.
    Registering the font reads the font file. *)
Definition create_certificate (P : paths) : prog unit :=
  _ <- read_bytes (font_path P) ;;
  wordlist_contents <- read_wordlist (wordlist_file_path P) ;;
  for_each_name P wordlist_contents.

End CertificateGenerator.

(** ** QRCode_Generator/qrcode_generator.py *)

Module QRCodeGenerator.

Record paths : Type := Paths {
  LOGOS_DIRECTORY_PATH : str;
  QRCODES_DIRECTORY_PATH : str;
  FONTS_DIRECTORY_PATH : str
}.

(** The characters of the class [FORBIDDEN_CHARS], line 444.  In the
    regular expression the backslash escapes the slash that follows it, so
    the class holds the slash and not the backslash. *)
Definition FORBIDDEN_CHARS : str := lit "/:*?" ++ [dquote] ++ lit "<>|".

(** [re.search(FORBIDDEN_CHARS, filename)] as a truth value. *)
Definition re_search_forbidden (filename : str) : bool :=
  existsb (fun c => contains c FORBIDDEN_CHARS) filename.

(** The loop of [get_text], lines 42-57, over the keys still to come. *)
Fixpoint read_text_lines (keys : list keyboard) (text_lines : list str)
    (enter_pressed : nat) : result (list str) * list keyboard :=
  match keys with
  | [] => (Raise EOFError, [])
  | CtrlC :: rest => (Exit 1, rest)
  | Line line :: rest =>
      if negb (truthy line) then
        let enter_pressed := S enter_pressed in
        if Nat.ltb 1 enter_pressed then (Return text_lines, rest)
        else read_text_lines rest (text_lines ++ [[]]) enter_pressed
      else read_text_lines rest (text_lines ++ [rstrip line]) 0
  end.

(** [get_text()], lines 23-65. *)
Definition get_text : prog str :=
  text_lines <- (fun w =>
                   let '(r, rest) := read_text_lines (stdin w) [] 0 in
                   (r, set_stdin rest w)) ;;
  let input_text := strip (join nl text_lines) in
  if bool_decide (strip input_text = []) then exit 1
  else ret input_text.

(** [standard_qr_gen] and [dots_qr_gen], lines 70-152: the calls of the
    [qrcode] library, kept as the description of the image they ask for. *)
Definition standard_qr_gen (input_text error_correction bg_color : str) : qr_image :=
  StandardQR bg_color input_text.

Definition dots_qr_gen (input_text error_correction bg_color : str) : qr_image :=
  DotsQR bg_color input_text.

(** [extension_menu()], lines 157-210. *)
Definition extension_menu : prog (option (str * str)) :=
  extension_type <- try_except
                      (text <- input ;; ret (strip (lower text)))
                      (except_only is_KeyboardInterrupt (exit 1)) ;;
  let chosen l := bool_decide (extension_type ∈ map lit l) in
  if chosen ["1"; "jpeg"; ""]%string then ret (Some (lit "jpeg", lit "JPEG"))
  else if chosen ["2"; "jpg"]%string then ret (Some (lit "jpg", lit "JPEG"))
  else if chosen ["3"; "png"]%string then ret (Some (lit "png", lit "PNG"))
  else if chosen ["4"; "gif"]%string then ret (Some (lit "gif", lit "GIF"))
  else if chosen ["5"; "tiff"]%string then ret (Some (lit "tiff", lit "TIFF"))
  else if chosen ["6"; "bmp"]%string then ret (Some (lit "bmp", lit "BMP"))
  else if chosen ["7"]%string then exit 0
  else ret None.

(** [add_center_image(qr_image, bg_color)], lines 215-262: a logo that
    cannot be opened leaves the image as it is. *)
Definition add_center_image (P : paths) (image : qr_image) (bg_color : str) : prog qr_image :=
  let center_image :=
    if bool_decide (bg_color = lit "white") then lit "White_border_circle.png"
    else lit "White_bg_circle.png" in
  let center_image_path := os_path_join (LOGOS_DIRECTORY_PATH P) center_image in
  if negb (truthy center_image_path) || bool_decide (strip center_image_path = [])
  then ret image
  else
    try_except
      (_ <- read_bytes center_image_path ;; ret (CenterImage center_image image))
      (except_Exception (fun _ => ret image)).

(** [add_title(qr_image, title, bg_color)], lines 267-310. *)
Definition add_title (P : paths) (image : qr_image) (title bg_color : str) : prog qr_image :=
  font_file <- Utils.select_font (FONTS_DIRECTORY_PATH P) ;;
  ret (Titled title font_file image).

(** [while extension is None: extension, image_format = extension_menu()],
    lines 399-401. *)
Fixpoint ask_extension (fuel : nat) : prog (str * str) :=
  match fuel with
  | O => fun w => (Diverge, w)
  | S fuel' =>
      answer <- extension_menu ;;
      match answer with
      | Some chosen => ret chosen
      | None => ask_extension fuel'
      end
  end.

(** [f"{filename}({counter}).{extension}"] in the directory of the codes. *)
Definition numbered_path (P : paths) (filename extension : str) (counter : nat) : str :=
  os_path_join (QRCODES_DIRECTORY_PATH P)
    (filename ++ lit "(" ++ str_of_nat counter ++ lit ")." ++ extension).

Definition plain_path (P : paths) (filename extension : str) : str :=
  os_path_join (QRCODES_DIRECTORY_PATH P) (filename ++ lit "." ++ extension).

(** [while os.path.exists(qr_image_path): ...], lines 407-410. *)
Fixpoint free_path (fuel : nat) (P : paths) (filename extension : str)
    (qr_image_path : str) (counter : nat) : prog str :=
  match fuel with
  | O => fun w => (Diverge, w)
  | S fuel' =>
      taken <- os_path_exists qr_image_path ;;
      if taken
      then free_path fuel' P filename extension
             (numbered_path P filename extension counter) (S counter)
      else ret qr_image_path
  end.

(** The prompts for the style and the background colour, lines 349-363. *)
Definition ask_style_and_color : prog (Z * Z) :=
  let choice :=
    text <- input ;;
    match int text with
    | Some n => if bool_decide (n ∈ [1; 2]%Z) then ret n else raise ValueError
    | None => raise ValueError
    end in
  try_except
    (qr_style <- choice ;; background_color <- choice ;;
     ret (qr_style, background_color))
    (except_any (exit 1)).

(** The part of [generate_qrcode] that builds the image, lines 333-383. *)
Definition build_image (P : paths) : prog qr_image :=
  input_text <- get_text ;;
  let error_correction := lit "H" in
  if negb (bool_decide (error_correction ∈ map lit ["L"; "M"; "Q"; "H"]%string)) then exit 1
  else
    choices <- ask_style_and_color ;;
    let '(qr_style, background_color) := choices in
    let qr_func := if (qr_style =? 1)%Z then standard_qr_gen else dots_qr_gen in
    let bg_color := if (background_color =? 2)%Z then lit "black" else lit "white" in
    let qr_image := qr_func input_text error_correction bg_color in
    qr_image <- add_center_image P qr_image bg_color ;;
    title <- try_except (text <- input ;; ret (strip text))
                        (except_only is_KeyboardInterrupt (exit 1)) ;;
    if truthy title then add_title P qr_image title bg_color else ret qr_image.

(** The end of [generate_qrcode], lines 403-418: the image goes to the
    first path that is free.  The loop is given more turns than there are
    files. *)
Definition save_to_free_path (P : paths) (filename extension image_format : str)
    (qr_image : qr_image) : prog str :=
  qr_image_path <-
    (fun w => free_path (S (size (files w))) P filename extension
                (plain_path P filename extension) 1 w) ;;
  write_file qr_image_path (Picture image_format qr_image) ;;;
  ret qr_image_path.

(** The part of [generate_qrcode] that names and saves the image, lines
    384-418.  The menu of the extensions is shown again until an answer is
    valid; every turn reads one line, so the lines still to come bound the
    number of turns. *)
Definition save_image (P : paths) (qr_image : qr_image) : prog str :=
  filename <- try_except (text <- input ;; ret (strip text))
                         (except_only is_KeyboardInterrupt (exit 1)) ;;
  if re_search_forbidden filename then exit 1
  else
    let filename := if negb (truthy filename) then lit "qrcode" else filename in
    chosen <- (fun w => ask_extension (S (length (stdin w))) w) ;;
    let '(extension, image_format) := chosen in
    save_to_free_path P filename extension image_format qr_image.

(** [generate_qrcode()], lines 315-418. *)
Definition generate_qrcode (P : paths) : prog str :=
  qr_image <- build_image P ;;
  save_image P qr_image.

End QRCodeGenerator.
(** ** Email_Sender/send_email.py, with the checks of utils.py it runs *)

Module EmailSender.

(** One row of [csv.DictReader]: a dictionary from the names of the columns
    to the fields, a field being [None] where the line is too short.  Such a
    dictionary is never empty, so [if first_row:] only tells whether there
    is a row. *)
Definition row : Type := gmap str (option str).

(** [row.get(key, "")] *)
Definition get (r : row) (key : str) : option str :=
  default (Some []) (r !! key).

(** The truth value of a field that may be [None]. *)
Definition field_truthy (field : option str) : bool :=
  match field with Some s => truthy s | None => false end.

(** The last argument of [send_email]: a list of paths, or in mode
    [Other] one file name. *)
Inductive attachments : Type :=
  | AttachmentList (l : list str)
  | AttachmentName (s : str).

(** The module-level configuration set by [__main__]. *)
Record config : Type := Config {
  SENDER_EMAIL : str;
  EMAIL_SUBJECT : str;
  ATTACHMENT_MODE : str;
  ATTACHMENTS_DIRECTORY_PATH : str;
  CERTIFICATE_EMAIL_AUTOMATION_DIR_PATH : str;
  CSV_FILE_PATH : str;
  BODY_TEMPLATE_FILE_PATH : str;
  LOG_FILE_PATH : str;
  (** [sys.argv[1]], when the script is given an argument *)
  argv1 : option str
}.

(** [automation_script], line 204. *)
Definition automation_script (C : config) : bool :=
  bool_decide (argv1 C = Some (lit "extract_certify_and_email_script")).

(** The test of [send_email], line 42, which strips the argument. *)
Definition called_by_automation (C : config) : bool :=
  match argv1 C with
  | Some argument => bool_decide (strip argument = lit "extract_certify_and_email_script")
  | None => false
  end.

Definition Common : str := lit "Common".
Definition Respective : str := lit "Respective".
Definition Other : str := lit "Other".
Definition NoAttachments : str := lit "None".

Definition Email : str := lit "Email".
Definition Full_Name : str := lit "Full Name".
Definition Attachments : str := lit "Attachments".

(** [add_attachment(msg, attachment_path)], utils.py lines 21-48. *)
Definition add_attachment (msg : mail) (attachment_path : str) : prog mail :=
  try_except
    (data <- read_bytes (strip attachment_path) ;;
     ret (Mail (mail_to msg) (mail_subject msg) (mail_body msg)
               (mail_attachments msg ++ [(basename attachment_path, data)])))
    (except_only is_FileNotFoundError
       (logging (LogAttachmentNotFound attachment_path) ;;; ret msg)).

(** [read_email_body_template(body_template_file)], utils.py lines 342-362. *)
Definition read_email_body_template (body_template_file : str) : prog str :=
  try_except (read_text body_template_file)
    (except_Exception (fun e => logging (LogTemplateError e) ;;; exit 1)).

(** [initialize_necessary_files(log_file=log_file)], utils.py lines 318-338,
    for the one file the last part of [__main__] passes. *)
Definition initialize_log_file (log_file : str) : prog unit :=
  present <- os_path_exists log_file ;;
  if present then ret tt else write_file log_file (Text []).

(** The connection to the server, lines 59-66. *)
Definition smtp_sendmail (msg : mail) : prog unit :=
  fun w =>
    match smtp w (smtp_calls w) with
    | Delivered => (Return tt, add_mail msg (next_smtp w))
    | Fails e => (Raise e, next_smtp w)
    end.

(** The paths taken from a list given as [attachments], lines 52-56; a
    string given instead is traversed character by character. *)
Definition attachment_items (a : attachments) : list str :=
  match a with
  | AttachmentList l => l
  | AttachmentName s => map (fun c => [c]) s
  end.

Fixpoint attach_all (C : config) (items : list str) (msg : mail) : prog mail :=
  match items with
  | [] => ret msg
  | attachment_path :: rest =>
      if truthy (strip attachment_path) then
        msg <- add_attachment msg
                 (os_path_join (ATTACHMENTS_DIRECTORY_PATH C) attachment_path) ;;
        attach_all C rest msg
      else attach_all C rest msg
  end.

Definition is_SMTPAuthenticationError (e : exn) : bool :=
  match e with SMTPAuthenticationError => true | _ => false end.

Definition is_gaierror (e : exn) : bool :=
  match e with gaierror => true | _ => false end.

(** The message and its attachments, send_email.py lines 33-56. *)
Definition build_message (C : config) (recipient_email subject body : str)
    (attached : attachments) : prog mail :=
  let msg := Mail recipient_email subject body [] in
  if called_by_automation C then
    gen_certs_dir_path <-
      read_text (os_path_join (CERTIFICATE_EMAIL_AUTOMATION_DIR_PATH C)
                              (lit "gen_certs_dir_path.txt")) ;;
    match attached with
    | AttachmentName file_name =>
        add_attachment msg (os_path_join gen_certs_dir_path file_name)
    | AttachmentList _ => raise TypeError
    end
  else attach_all C (attachment_items attached) msg.

(** [send_email(recipient_email, name, subject, body, attachments)],
    send_email.py lines 19-84. *)
Definition send_email (C : config) (recipient_email name subject body : str)
    (attached : attachments) : prog unit :=
  try_except
    (msg <- build_message C recipient_email subject body attached ;;
     try_except (smtp_sendmail msg)
                (except_only is_KeyboardInterrupt (exit 1)) ;;;
     logging (LogEmailSent recipient_email))
    (fun e =>
       if is_SMTPAuthenticationError e then Some (exit 1)
       else if is_gaierror e then Some (exit 1)
       else except_Exception (fun _ => logging (LogFailedToSend recipient_email)) e).

Section WithReader.

(** [csv.DictReader] on the text of a file: the names of the columns
    ([None] for an empty file) and the rows.  The reader belongs to the
    standard library; the properties below hold whatever it yields. *)
Variable DictReader : str -> option (list str) * list row.

(** [check_csv(csv_file_path, attachment_mode, additional_column)],
    utils.py lines 158-219. *)
Definition row_is_invalid (r : row) : bool :=
  match get r Full_Name, get r Email with
  | Some full_name, Some email =>
      bool_decide (strip full_name = []) || bool_decide (strip email = [])
  | _, _ => true
  end.

Definition check_csv (csv_file_path attachment_mode : str)
    (additional_column : option str) : prog unit :=
  data <- try_except (read_text csv_file_path)
                     (except_only is_UnicodeDecodeError (exit 1)) ;;
  let '(fieldnames, rows) := DictReader data in
  if bool_decide (rows = []) || bool_decide (fieldnames = None) then exit 1
  else
    let required_columns :=
      [Full_Name; Email] ++ match additional_column with
                            | Some column => if truthy column then [column] else []
                            | None => []
                            end in
    let missing_columns :=
      filter (fun column => bool_decide (column ∉ default [] fieldnames))
             required_columns in
    if bool_decide (missing_columns <> []) then exit 1
    else if bool_decide (attachment_mode ∈ [Respective; Common])
            && bool_decide (Attachments ∉ default [] fieldnames) then exit 1
    else
      let invalid_rows :=
        filter (fun indexed => row_is_invalid (snd indexed))
               (zip (seq 2 (length rows)) rows) in
      if bool_decide (invalid_rows <> []) then exit 1 else ret tt.

(** [check_attachments(...)], utils.py lines 51-120.  The two directories
    are optional arguments; joining a path to one that was not given raises
    [TypeError]. *)
Definition exists_in (w : world) (directory attachment : str) : bool :=
  bool_decide (is_Some (files w !! os_path_join directory attachment)).

Definition check_common (w : world) (attachments_dir_path : str)
    (common_attachments : list str) : bool :=
  existsb (fun attachment =>
             negb (truthy attachment) || bool_decide (strip attachment = [])
             || negb (exists_in w attachments_dir_path attachment))
          common_attachments.

(** The loop of mode [Respective]: [missing_files] keeps its value from one
    row to the next when a row names no attachment. *)
Fixpoint check_respective (w : world) (attachments_dir_path : str)
    (rows : list row) (missing_files : list str) (is_missing : bool) : bool :=
  match rows with
  | [] => is_missing
  | r :: rest =>
      let missing_files :=
        if field_truthy (get r Attachments) then
          filter (fun path => truthy path
                              && negb (exists_in w attachments_dir_path path))
                 (map strip (split_on ";"%char (default [] (get r Attachments))))
        else missing_files in
      check_respective w attachments_dir_path rest missing_files
        (is_missing || bool_decide (missing_files <> []))
  end.

(** A row of mode [Respective] for which a path is joined to the directory. *)
Definition names_a_path (r : row) : bool :=
  field_truthy (get r Attachments)
  && existsb (fun path => truthy (strip path))
             (split_on ";"%char (default [] (get r Attachments))).

Definition certificate_name (full_name : str) : str :=
  replace " "%char "_"%char (strip (title full_name)) ++ lit "_certificate.pdf".

Fixpoint check_other (automation_dir_path : option str) (rows : list row)
    (is_missing : bool) : prog bool :=
  match rows with
  | [] => ret is_missing
  | r :: rest =>
      match get r Full_Name, automation_dir_path with
      | None, _ => raise AttributeError
      | Some _, None => raise TypeError
      | Some full_name, Some directory =>
          let name := strip (title full_name) in
          let attached := certificate_name name in
          gen_certs_dir_path <-
            read_text (os_path_join directory (lit "gen_certs_dir_path.txt")) ;;
          present <- os_path_exists (os_path_join gen_certs_dir_path attached) ;;
          check_other automation_dir_path rest (is_missing || negb present)
      end
  end.

Definition check_attachments (csv_file_path : str)
    (attachments_dir_path : option str) (attachment_mode : str)
    (automation_dir_path : option str) : prog unit :=
  data <- read_text csv_file_path ;;
  let rows := snd (DictReader data) in
  is_missing <-
    (if bool_decide (attachment_mode = Common) then
       match rows with
       | [] => ret false
       | first_row :: _ =>
           match first_row !! Attachments with
           | None => raise KeyError
           | Some field =>
               if field_truthy field then
                 match attachments_dir_path with
                 | Some directory =>
                     fun w => (Return (check_common w directory
                                         (split_on ";"%char (default [] field))), w)
                 | None => raise TypeError
                 end
               else exit 1
           end
       end
     else if bool_decide (attachment_mode = Respective) then
       match attachments_dir_path with
       | Some directory =>
           fun w => (Return (check_respective w directory rows [] false), w)
       | None => if existsb names_a_path rows then raise TypeError else ret false
       end
     else if bool_decide (attachment_mode = Other) then
       check_other automation_dir_path rows false
     else ret false) ;;
  if is_missing then exit 1 else ret tt.

(** The attachments of one row, send_email.py lines 130-148. *)
Definition row_attachments (C : config) (common_attachments : option (list str))
    (r : row) (name : str) : prog attachments :=
  if bool_decide (ATTACHMENT_MODE C = Respective) then
    if field_truthy (get r Attachments) then
      let field := default [] (get r Attachments) in
      ret (AttachmentList (if truthy (strip field) then split_on ";"%char field else []))
    else ret (AttachmentList [])
  else if bool_decide (ATTACHMENT_MODE C = Common) then
    match common_attachments with
    | Some l => ret (AttachmentList l)
    | None => raise NameError
    end
  else if bool_decide (ATTACHMENT_MODE C = Other) then
    ret (AttachmentName (certificate_name name))
  else if bool_decide (ATTACHMENT_MODE C = NoAttachments) then
    ret (AttachmentList [])
  else exit 1.

(** The body of the loop over the rows, lines 122-161: [Return] carries the
    row index for the next row. *)
Definition process_row (C : config) (body_template : str)
    (common_attachments : option (list str)) (row_index : nat) (r : row) : prog nat :=
  try_except
    (match get r Email, get r Full_Name with
     | Some email, Some full_name =>
         let recipient_email := strip (lower email) in
         let name := strip (title full_name) in
         attached <- row_attachments C common_attachments r name ;;
         let personalized_body := replace_str (lit "{{name}}") name body_template in
         send_email C recipient_email name (EMAIL_SUBJECT C) personalized_body attached ;;;
         ret (S row_index)
     | _, _ => raise ValueError
     end)
    (except_Exception (fun row_error =>
       logging (LogRowError row_index row_error) ;;; ret row_index)).

Fixpoint process_rows (C : config) (body_template : str)
    (common_attachments : option (list str)) (row_index : nat) (rows : list row)
    : prog unit :=
  match rows with
  | [] => ret tt
  | r :: rest =>
      row_index <- process_row C body_template common_attachments row_index r ;;
      process_rows C body_template common_attachments row_index rest
  end.

(** [common_attachments] as set from the first row, lines 106-113. *)
Definition read_common_attachments (C : config) (rows : list row) : option (list str) :=
  if bool_decide (ATTACHMENT_MODE C = Common) then
    match rows with
    | first_row :: _ =>
        Some (if field_truthy (get first_row Attachments)
              then split_on ";"%char (default [] (get first_row Attachments))
              else [])
    | [] => None
    end
  else None.

(** [send_bulk_emails(csv_file_path, body_template_file)], lines 87-171. *)
Definition send_bulk_emails (C : config) (csv_file_path body_template_file : str)
    : prog unit :=
  try_except
    (body_template <- read_email_body_template body_template_file ;;
     data <- read_text csv_file_path ;;
     let rows := snd (DictReader data) in
     let common_attachments := read_common_attachments C rows in
     process_rows C body_template common_attachments 2 rows)
    (fun e =>
       if is_FileNotFoundError e then Some (logging (LogCsvNotFound csv_file_path))
       else if is_ValueError e then Some (logging LogInvalidCsv)
       else except_Exception (fun e => logging (LogUnexpectedError e)) e).

(** The end of [__main__], lines 234-250: the checks of the CSV file, then
    the sending. *)
Definition main_checks_and_send (C : config) : prog unit :=
  (if negb (automation_script C) then
     check_csv (CSV_FILE_PATH C) (ATTACHMENT_MODE C) None ;;;
     Utils.sort_csv (CSV_FILE_PATH C) ;;;
     check_attachments (CSV_FILE_PATH C) (Some (ATTACHMENTS_DIRECTORY_PATH C))
       (ATTACHMENT_MODE C) None ;;;
     initialize_log_file (LOG_FILE_PATH C)
   else
     check_attachments (CSV_FILE_PATH C) None (ATTACHMENT_MODE C)
       (Some (CERTIFICATE_EMAIL_AUTOMATION_DIR_PATH C))) ;;;
  send_bulk_emails C (CSV_FILE_PATH C) (BODY_TEMPLATE_FILE_PATH C).

End WithReader.

(** What [csv.DictReader] yields on a text without quotes: the first line
    names the columns, every later line that is not empty is a row, and a
    short row is filled with [None]. *)
Definition plain_row (fieldnames : list str) (line : str) : row :=
  let fields := split_on ","%char line in
  list_to_map (zip fieldnames
                 (map Some fields
                  ++ replicate (length fieldnames - length fields) None)).

Definition chomp (line : str) : str :=
  if endswith nl line then take (length line - 1) line else line.

Definition plain_DictReader (data : str) : option (list str) * list row :=
  match map chomp (readlines data) with
  | [] => (None, [])
  | header :: rest =>
      let fieldnames := if truthy header then split_on ","%char header else [] in
      (Some fieldnames, map (plain_row fieldnames) (filter (fun l => truthy l) rest))
  end.

End EmailSender.

(** ** Utilities/utils.py, the checks run before the e-mails are sent *)

Module UtilsChecks.

(** [default_html_code], utils.py lines 8-16. *)
Definition default_html_code : str :=
  lit "<!-- <html>" ++ nl ++
  lit "    <body>" ++ nl ++
  lit "        <p><strong>Hello {{name}}</strong>,</p>" ++ nl ++
  lit "        <p>Here's the link to club website <em><a href=" ++ [dquote] ++
  lit "https://cyberelites.org" ++ [dquote] ++ lit " target=" ++ [dquote] ++
  lit "_blank" ++ [dquote] ++
  lit ">CyberElites</a></em>. Explore more about us here.</p>" ++ nl ++
  lit "        <p>Thank you for being part of our community!</p>" ++ nl ++
  lit "        <p>Best regards,<br><strong>CyberElites Club</strong></p>" ++ nl ++
  lit "    </body>" ++ nl ++
  lit "</html> -->" ++ nl.

(** [initialize_necessary_files(body_template_file, log_file,
    gmail_app_password_file)], utils.py lines 318-338. *)
Fixpoint create_missing (body_template_file : option str)
    (paths : list (option str)) : prog unit :=
  match paths with
  | [] => ret tt
  | None :: rest => create_missing body_template_file rest
  | Some file :: rest =>
      present <- os_path_exists file ;;
      (if present then ret tt
       else if bool_decide (Some file = body_template_file)
            then write_file file (Text default_html_code)
            else write_file file (Text [])) ;;;
      create_missing body_template_file rest
  end.

Definition initialize_necessary_files
    (body_template_file log_file gmail_app_password_file : option str) : prog unit :=
  create_missing body_template_file
    [body_template_file; log_file; gmail_app_password_file].

(** [check_gmail_app_password(gmail_app_password_file)], utils.py lines
    222-251. *)
Definition check_gmail_app_password (gmail_app_password_file : str) : prog str :=
  try_except
    (data <- read_text gmail_app_password_file ;;
     let lines := readlines data in
     let password := map strip (filter (fun line => truthy (strip line)) lines) in
     match password with
     | [only] =>
         if negb (Nat.eqb (count " "%char only) 0) then exit 1 else ret only
     | _ => exit 1
     end)
    (except_Exception (fun _ => exit 1)).

(** [check_body_template(body_template_path)], utils.py lines 123-155. *)
Definition is_commented (line : str) : bool :=
  startswith (lit "<!--") (lstrip line) && endswith (lit "-->") (rstrip line).

Definition check_body_template (body_template_path : str) : prog unit :=
  lines <- try_except
             (data <- read_text body_template_path ;;
              ret (filter (fun line => truthy (strip line)) (readlines data)))
             (except_any (exit 1)) ;;
  match lines with
  | [] => exit 1
  | first :: _ =>
      if forallb is_commented lines then exit 1
      else if startswith (lit "<!--") first
              && endswith (lit "-->") (strip (List.last lines [])) then exit 1
      else ret tt
  end.

(** [get_single_file(directory_name, directory, extension)], utils.py lines
    281-315. *)
Definition get_single_file (directory extension : str) : prog str :=
  found <- Utils.get_files directory extension ;;
  match found with
  | [file] => ret file
  | _ :: _ :: _ => exit 1
  | [] =>
      (if bool_decide (extension = lit "TXT")
       then write_file (os_path_join directory (lit "wordlist.txt")) (Text [])
       else ret tt) ;;;
      exit 1
  end.

End UtilsChecks.
(** ** Vocabulary of the properties *)

Definition title_char (previous_is_cased : bool) (c : ascii) : ascii :=
  if previous_is_cased then lower_char c else upper_char c.

Definition no_newline (s : str) : Prop := Forall (fun c => eqb_char c newline = false) s.

(** [x] comes no later than [y] in the order of [key]. *)
Definition key_le {A : Type} (key : A -> str) (x y : A) : Prop := le (key x) (key y).

(** The lines [readlines] gives back for [join nl L]. *)
Fixpoint lines_of (L : list str) : list str :=
  match L with
  | [] => []
  | [x] => [x]
  | x :: xs => (x ++ nl) :: lines_of xs
  end.

(** Every line is free of newlines, apart from the one that ends it. *)
Definition is_line (l : str) : Prop :=
  exists body, no_newline body /\ (l = body ++ nl \/ l = body).

(** The name [sort_wordlist] makes of a line. *)
Definition name_of (line : str) : str := strip (title line).

Definition blank (line : str) : bool := negb (truthy (strip line)).

(** A string that is already such a name. *)
Definition clean (n : str) : Prop :=
  no_newline n /\ n <> [] /\ name_of n = n.

(** The names [sort_wordlist] reads from a text. *)
Definition names_of (data : str) : list str :=
  sorted (map name_of (filter (fun l => truthy (strip l)) (readlines data))).

(** The key [sort_csv] sorts by when every row has one. *)
Definition second_key (row : str) : str := default [] (Utils.second_field row).

Definition has_comma (row : str) : Prop := 1 <= count ","%char row.

(** The rows paired with their keys, as [sorted] holds them while it sorts. *)
Definition decorate {A : Type} (key : A -> str) (l : list A) : list (str * A) :=
  map (fun x => (key x, x)) l.

(** The rows [sort_csv] keeps: the lines after the first that are not
    blank, stripped. *)
Definition data_rows_of (rows : list str) : list str :=
  map strip (filter (fun row => truthy (strip row)) rows).

(** The second comma-separated field of a row as it stands in the row. *)
Definition raw_second_field (row : str) : str :=
  nth 1 (split_on ","%char row) [].

Definition csv_world (file_path data : str) : world :=
  World {[ file_path := Text data ]} [] [] [] (fun _ => Delivered) 0.

(** The names [create_certificate] draws: the lines of the wordlist,
    stripped, that are not blank. *)
Definition certificate_names (wordlist_contents : list str) : list str :=
  filter (fun name => truthy name) (map strip wordlist_contents).

(** The two files one turn of the loop of [create_certificate] writes. *)
Definition store_certificate (P : CertificateGenerator.paths)
    (m : gmap str content) (name : str) : gmap str content :=
  <[CertificateGenerator.certificate_path P name :=
      Certificate (CertificateGenerator.template_file_path P) name]>
    (<[CertificateGenerator.tmp_file P := Overlay name]> m).

Definition with_files (m : gmap str content) (w : world) : world :=
  set_files (fun _ => m) w.

(** The files of the output directory. *)
Definition output_files (P : CertificateGenerator.paths) (w : world) : gset str :=
  filter (fun path =>
            startswith (CertificateGenerator.OUTPUT_DIRECTORY_PATH P ++ lit "/") path = true)
         (dom (files w)).

(** A name holds one of the characters the specification forbids in the
    names of files. *)
Definition has_forbidden_char (name : str) : bool :=
  existsb (fun c => contains c Utils.forbidden_chars) name.

(** A path that is neither the temporary file nor a certificate. *)
Definition untouched (P : CertificateGenerator.paths) (path : str) : Prop :=
  path <> CertificateGenerator.tmp_file P /\
  forall name, path <> CertificateGenerator.certificate_path P name.

(** A layout of the certificate generator, and a world that holds the font,
    the template and a wordlist. *)
Definition certificate_layout : CertificateGenerator.paths :=
  CertificateGenerator.Paths
    (lit "Certificate_Template/template.pdf")
    (lit "Wordlist/wordlist.txt")
    (lit "Fonts/font.ttf")
    (lit "tmp")
    (lit "Generated_Certificates").

Definition certificate_world (wordlist : str) : world :=
  World {[ lit "Certificate_Template/template.pdf" := Binary (lit "%PDF");
           lit "Wordlist/wordlist.txt" := Text wordlist;
           lit "Fonts/font.ttf" := Binary (lit "ttf") ]}
        [] [] [] (fun _ => Delivered) 0.

(** A computation that leaves the file system as it is. *)
Definition keeps_files {A : Type} (c : prog A) : Prop :=
  forall w, files (snd (c w)) = files w.

(** A computation that never runs out of fuel. *)
Definition total {A : Type} (c : prog A) : Prop :=
  forall w, fst (c w) <> Diverge.

(** The candidates of the loop of [generate_qrcode], in the order tried. *)
Definition candidates (P : QRCodeGenerator.paths) (filename extension : str)
    (first : str) (counter n : nat) : list str :=
  first :: map (QRCodeGenerator.numbered_path P filename extension) (seq counter n).

(** A layout of the QR code generator, and a world with an empty disk in
    which the user is going to type [keys]. *)
Definition qr_layout : QRCodeGenerator.paths :=
  QRCodeGenerator.Paths (lit "Logos") (lit "QRCodes") (lit "Fonts").

Definition typing (keys : list str) : world :=
  World ∅ (map Line keys) [] [] (fun _ => Delivered) 0.

(** The exceptions of the connection on which [send_email] ends the run:
    a failed authentication, a failed name resolution, and Ctrl-C. *)
Definition ends_the_run (e : exn) : bool :=
  EmailSender.is_SMTPAuthenticationError e || EmailSender.is_gaierror e
  || is_KeyboardInterrupt e.

Definition reply_ends_the_run (reply : smtp_reply) : bool :=
  match reply with
  | Delivered => false
  | Fails e => ends_the_run e
  end.

(** [w'] is [w] with more records in the log, and nothing else changed. *)
Definition only_logs (w w' : world) : Prop :=
  exists entries,
    w' = World (files w) (stdin w) (log w ++ entries) (outbox w) (smtp w) (smtp_calls w).

(** The attachment modes [send_bulk_emails] knows. *)
Definition valid_mode (C : EmailSender.config) : Prop :=
  EmailSender.ATTACHMENT_MODE C ∈
    [EmailSender.Respective; EmailSender.Common; EmailSender.Other;
     EmailSender.NoAttachments].

(** A configuration of the e-mail sender run by hand, with the attachment
    mode [mode], and a world that holds the CSV file and the template. *)
Definition email_config (mode : str) : EmailSender.config :=
  EmailSender.Config
    (lit "cyberelites.nsakcet@gmail.com") (lit "Subject") mode
    (lit "Email_Sender/Attachments") (lit "Certificate_Email_Automation")
    (lit "Email_Sender/Spreadsheet/list.csv")
    (lit "Email_Sender/body_template.html")
    (lit "Email_Sender/email_log.txt")
    None.

Definition email_world (csv : str) (replies : nat -> smtp_reply) : world :=
  World {[ lit "Email_Sender/Spreadsheet/list.csv" := Text csv;
           lit "Email_Sender/body_template.html" := Text (lit "<p>Hello {{name}}</p>") ]}
        [] [] [] replies 0.

(** A row with the three columns filled. *)
Definition full_row (full_name email attached : str) : EmailSender.row :=
  {[ EmailSender.Full_Name := Some full_name;
     EmailSender.Email := Some email;
     EmailSender.Attachments := Some attached ]}.

(** A row that [check_csv] lets pass: a name and an address, neither blank. *)
Definition complete_row (r : EmailSender.row) : Prop :=
  exists full_name email,
    EmailSender.get r EmailSender.Full_Name = Some full_name /\
    EmailSender.get r EmailSender.Email = Some email /\
    strip full_name <> [] /\ strip email <> [].

(** The columns [check_csv] asks for. *)
Definition required_columns_present (attachment_mode : str)
    (additional_column : option str) (fieldnames : list str) : Prop :=
  EmailSender.Full_Name ∈ fieldnames /\ EmailSender.Email ∈ fieldnames /\
  (forall column, additional_column = Some column -> column <> [] ->
                  column ∈ fieldnames) /\
  (attachment_mode ∈ [EmailSender.Respective; EmailSender.Common] ->
   EmailSender.Attachments ∈ fieldnames).

(** The paths a row names in mode [Respective]: the entries of its
    Attachments field, stripped, that are not empty. *)
Definition row_paths (r : EmailSender.row) : list str :=
  if EmailSender.field_truthy (EmailSender.get r EmailSender.Attachments)
  then filter (fun path => truthy path)
         (map strip (split_on ";"%char
                       (default [] (EmailSender.get r EmailSender.Attachments))))
  else [].

(** The message [send_bulk_emails] makes of a row when nothing is attached. *)
Definition mail_for (C : EmailSender.config) (body_template : str)
    (r : EmailSender.row) : mail :=
  Mail (strip (lower (default [] (EmailSender.get r EmailSender.Email))))
       (EmailSender.EMAIL_SUBJECT C)
       (replace_str (lit "{{name}}")
          (strip (title (default [] (EmailSender.get r EmailSender.Full_Name))))
          body_template)
       [].

(** A row in which neither the name nor the address is [None]. *)
Definition addressed_row (r : EmailSender.row) : Prop :=
  is_Some (EmailSender.get r EmailSender.Email) /\
  is_Some (EmailSender.get r EmailSender.Full_Name).


(** The world after [mails] were delivered one after the other: each one
    is in the outbox and has its record in the log, and the server was
    called once for each. *)
Definition after_sending (mails : list mail) (w : world) : world :=
  World (files w) (stdin w)
        (log w ++ map (fun m => LogEmailSent (mail_to m)) mails)
        (outbox w ++ mails) (smtp w) (smtp_calls w + length mails).

(** What [send_email] attaches for one entry of its list, given the files
    that exist: nothing for a blank entry or a missing file, and else the
    content of the file under the base name of its path. *)
Definition attachment_file (C : EmailSender.config) (attachment_path : str) : str :=
  os_path_join (EmailSender.ATTACHMENTS_DIRECTORY_PATH C) attachment_path.

Definition attachment_of (C : EmailSender.config) (m : gmap str content)
    (attachment_path : str) : option (str * content) :=
  if truthy (strip attachment_path) then
    (fun data => (basename (attachment_file C attachment_path), data))
      <$> m !! strip (attachment_file C attachment_path)
  else None.

Definition missing_attachment (C : EmailSender.config) (m : gmap str content)
    (attachment_path : str) : bool :=
  truthy (strip attachment_path)
  && bool_decide (m !! strip (attachment_file C attachment_path) = None).

(** * Properties *)

(** ** The operations on small inputs *)

Example readlines_keeps_line_ends :
  readlines (lit "ab" ++ nl ++ lit "c") = [lit "ab" ++ nl; lit "c"].
Proof. reflexivity. Qed.

Example split_ws_drops_white_space :
  split_ws (lit "  john   van doe ") = [lit "john"; lit "van"; lit "doe"].
Proof. reflexivity. Qed.

Example title_follows_cased_characters :
  title (lit "jOHN o'neil-x 3rd") = lit "John O'Neil-X 3Rd".
Proof. reflexivity. Qed.

Example sorted_is_by_code_point :
  sorted [lit "b"; lit "a"; lit "B"; lit "ab"] = [lit "B"; lit "a"; lit "ab"; lit "b"].
Proof. reflexivity. Qed.

Example str_of_nat_is_decimal : str_of_nat 120 = lit "120".
Proof. reflexivity. Qed.

Example int_reads_signs_and_underscores :
  int (lit " +1_0 ") = Some 10%Z /\ int (lit "1__0") = None /\
  int (lit "-07") = Some (-7)%Z /\ int (lit "") = None.
Proof. repeat split; reflexivity. Qed.

Example os_path_join_adds_the_slash :
  os_path_join (lit "QRCodes") (lit "a.png") = lit "QRCodes/a.png" /\
  os_path_join (lit "QRCodes/") (lit "a.png") = lit "QRCodes/a.png" /\
  os_path_join (lit "QRCodes") (lit "/a.png") = lit "/a.png".
Proof. repeat split; reflexivity. Qed.

Example replace_str_fills_the_name :
  replace_str (lit "{{name}}") (lit "Ann") (lit "<p>Hello {{name}}, {{name}}!</p>") =
  lit "<p>Hello Ann, Ann!</p>".
Proof. reflexivity. Qed.

(** [get_text] strips every line on the right and the whole text, and ends
    at the second empty line in a row. *)
Example get_text_strips :
  fst (QRCodeGenerator.get_text (typing [lit "hello  "; lit ""; lit " world"; lit ""; lit ""])) =
  Return (lit "hello" ++ nl ++ nl ++ lit " world").
Proof. vm_compute. reflexivity. Qed.

(** A whole run of [generate_qrcode]: a text, the standard style on white, no
    title, the default name, and a second answer to the menu after one that
    is no extension. *)
Example generate_qrcode_run :
  QRCodeGenerator.generate_qrcode qr_layout
    (typing [lit "hello"; lit ""; lit ""; lit "1"; lit "1"; lit ""; lit "";
             lit "pdf"; lit "PNG "]) =
  (Return (lit "QRCodes/qrcode.png"),
   World {[ lit "QRCodes/qrcode.png" :=
              Picture (lit "PNG") (StandardQR (lit "white") (lit "hello")) ]}
         [] [] [] (fun _ => Delivered) 0).
Proof. vm_compute. reflexivity. Qed.

(** A whole run of the e-mail sender in mode [Respective]: the file is
    sorted by its second column, the attachment that exists is attached,
    both mails leave. *)
Example send_bulk_emails_run :
  let w := set_files (insert (lit "Email_Sender/Attachments/a.pdf") (Binary (lit "%PDF")))
             (email_world (lit "Full Name,Email,Attachments" ++ nl ++
                           lit "zoe,Zoe@x.org,a.pdf" ++ nl ++
                           lit "adam,adam@x.org," ++ nl)
                          (fun _ => Delivered)) in
  let r := EmailSender.main_checks_and_send EmailSender.plain_DictReader
             (email_config EmailSender.Respective) w in
  fst r = Return tt /\
  map (fun m => (mail_to m, mail_body m, map fst (mail_attachments m))) (outbox (snd r)) =
    [(lit "zoe@x.org", lit "<p>Hello Zoe</p>", [lit "a.pdf"]);
     (lit "adam@x.org", lit "<p>Hello Adam</p>", [])] /\
  log (snd r) = [LogEmailSent (lit "zoe@x.org"); LogEmailSent (lit "adam@x.org")].
Proof. vm_compute. repeat split; reflexivity. Qed.

(** ** Facts about the string operations *)

Module PyFacts.

Ltac by_cases_on_char c :=
  destruct c as [[] [] [] [] [] [] [] []]; reflexivity.

Lemma isspace_title_char b c : isspace (title_char b c) = isspace c.
Proof. destruct b; by_cases_on_char c. Qed.

Lemma iscased_title_char b c : iscased (title_char b c) = iscased c.
Proof. destruct b; by_cases_on_char c. Qed.

Lemma title_char_idem b c : title_char b (title_char b c) = title_char b c.
Proof. destruct b; by_cases_on_char c. Qed.

Lemma newline_title_char b c :
  eqb_char (title_char b c) newline = eqb_char c newline.
Proof. destruct b; by_cases_on_char c. Qed.

Lemma isspace_cased c : isspace c = true -> iscased c = false.
Proof. revert c. intros [[] [] [] [] [] [] [] []]; vm_compute; congruence. Qed.

Lemma isspace_newline : isspace newline = true.
Proof. reflexivity. Qed.

Lemma title_from_cons b c s :
  title_from b (c :: s) = title_char b c :: title_from (iscased c) s.
Proof. reflexivity. Qed.

Lemma title_from_length b s : length (title_from b s) = length s.
Proof. revert b; induction s as [|c s IH]; intros b; simpl; [done|]. by rewrite IH. Qed.

Lemma title_from_nil b s : title_from b s = [] <-> s = [].
Proof. destruct s; simpl; split; congruence. Qed.

Lemma title_from_idem b s : title_from b (title_from b s) = title_from b s.
Proof.
  revert b; induction s as [|c s IH]; intros b; [done|].
  rewrite !title_from_cons, title_char_idem, iscased_title_char.
  by rewrite IH.
Qed.

Lemma title_from_app b s t :
  exists b', title_from b (s ++ t) = title_from b s ++ title_from b' t.
Proof.
  revert b; induction s as [|c s IH]; intros b; simpl.
  - by exists b.
  - destruct (IH (iscased c)) as [b' ->]. by exists b'.
Qed.

Lemma title_from_newline b : title_from b nl = nl.
Proof. by destruct b. Qed.

Lemma title_from_snoc_newline b s :
  title_from b (s ++ nl) = title_from b s ++ nl.
Proof.
  destruct (title_from_app b s nl) as [b' ->]. by rewrite title_from_newline.
Qed.

(** [rstrip], one character at a time. *)
Lemma rstrip_cons c s :
  rstrip (c :: s) =
  if isspace c && negb (truthy (rstrip s)) then [] else c :: rstrip s.
Proof. simpl. destruct (rstrip s), (isspace c); reflexivity. Qed.

Lemma rstrip_snoc_space s c : isspace c = true -> rstrip (s ++ [c]) = rstrip s.
Proof.
  intros Hc. induction s as [|x s IH].
  - simpl. by rewrite Hc.
  - rewrite <- app_comm_cons, !rstrip_cons, IH. done.
Qed.

Lemma rstrip_title_from b s : rstrip (title_from b s) = title_from b (rstrip s).
Proof.
  revert b; induction s as [|c s IH]; intros b; [done|].
  rewrite title_from_cons, !rstrip_cons, IH, isspace_title_char.
  assert (truthy (title_from (iscased c) (rstrip s)) = truthy (rstrip s)) as ->
    by (by destruct (rstrip s)).
  by destruct (isspace c && negb (truthy (rstrip s))).
Qed.

Lemma lstrip_title s : lstrip (title_from false s) = title_from false (lstrip s).
Proof.
  induction s as [|c s IH]; [done|].
  rewrite title_from_cons. cbn [lstrip]. rewrite isspace_title_char.
  destruct (isspace c) eqn:Hc.
  - rewrite (isspace_cased c Hc). exact IH.
  - reflexivity.
Qed.

Lemma strip_title s : strip (title s) = title (strip s).
Proof. unfold strip, title. by rewrite rstrip_title_from, lstrip_title. Qed.

Lemma title_idem s : title (title s) = title s.
Proof. apply title_from_idem. Qed.

Lemma lstrip_idem s : lstrip (lstrip s) = lstrip s.
Proof.
  induction s as [|c s IH]; [done|]. simpl.
  destruct (isspace c) eqn:Hc; [done|]. simpl. by rewrite Hc.
Qed.

Lemma rstrip_idem s : rstrip (rstrip s) = rstrip s.
Proof.
  induction s as [|c s IH]; [done|].
  rewrite rstrip_cons.
  destruct (isspace c && negb (truthy (rstrip s))) eqn:E; [done|].
  rewrite rstrip_cons, IH, E. done.
Qed.

Lemma rstrip_lstrip s : rstrip (lstrip s) = lstrip (rstrip s).
Proof.
  induction s as [|c s IH]; [done|].
  rewrite rstrip_cons. cbn [lstrip].
  destruct (isspace c) eqn:Hc; cbn [andb].
  - rewrite IH. destruct (rstrip s) eqn:E; cbn [truthy negb lstrip]; [done|].
    by rewrite Hc.
  - rewrite rstrip_cons, Hc. cbn [andb lstrip]. by rewrite Hc.
Qed.

Lemma strip_idem s : strip (strip s) = strip s.
Proof.
  unfold strip. by rewrite rstrip_lstrip, rstrip_idem, lstrip_idem.
Qed.

Lemma strip_snoc_newline s : strip (s ++ nl) = strip s.
Proof. unfold strip, nl. by rewrite rstrip_snoc_space. Qed.

(** What is left of a string by [lstrip], [rstrip] or [strip] is a part of it. *)
Lemma lstrip_Forall (P : ascii -> Prop) s : Forall P s -> Forall P (lstrip s).
Proof.
  induction 1 as [|c s Hc Hs IH]; simpl; [done|].
  destruct (isspace c); [done|]. by constructor.
Qed.

Lemma rstrip_Forall (P : ascii -> Prop) s : Forall P s -> Forall P (rstrip s).
Proof.
  induction 1 as [|c s Hc Hs IH]; [done|].
  rewrite rstrip_cons. destruct (isspace c && _); by constructor.
Qed.

Lemma strip_Forall (P : ascii -> Prop) s : Forall P s -> Forall P (strip s).
Proof. intros. by apply lstrip_Forall, rstrip_Forall. Qed.

Lemma title_from_no_newline b s : no_newline s -> no_newline (title_from b s).
Proof.
  intros H; revert b; induction H as [|c s Hc Hs IH]; intros b; simpl; [constructor|].
  constructor; [|apply IH].
  change (eqb_char (title_char b c) newline = false). by rewrite newline_title_char.
Qed.

(** ** The order on strings *)

Lemma ltb_irrefl a : ltb a a = false.
Proof.
  induction a as [|x a IH]; [done|]. simpl.
  by rewrite N.ltb_irrefl.
Qed.

Lemma ltb_asym a b : ltb a b = true -> ltb b a = false.
Proof.
  revert b; induction a as [|x a IH]; intros [|y b]; simpl; try done.
  destruct (code x <? code y)%N eqn:E1, (code y <? code x)%N eqn:E2; try done.
  - apply N.ltb_lt in E1, E2. lia.
  - apply IH.
Qed.

Lemma code_inj x y : code x = code y -> x = y.
Proof.
  unfold code. intros H.
  rewrite <- (ascii_N_embedding x), <- (ascii_N_embedding y). by rewrite H.
Qed.

Lemma ltb_total a b : ltb a b = false -> ltb b a = false -> a = b.
Proof.
  revert b; induction a as [|x a IH]; intros [|y b]; simpl; try done.
  destruct (code x <? code y)%N eqn:E1, (code y <? code x)%N eqn:E2; try done.
  intros Ha Hb. apply N.ltb_ge in E1, E2.
  f_equal; [apply code_inj; lia | by apply IH].
Qed.

Lemma ltb_trans a b c : ltb a b = true -> ltb b c = true -> ltb a c = true.
Proof.
  revert b c; induction a as [|x a IH]; intros [|y b] [|z c]; simpl; try done.
  destruct (code x <? code y)%N eqn:E1, (code y <? code x)%N eqn:E1';
    destruct (code y <? code z)%N eqn:E2, (code z <? code y)%N eqn:E2';
    destruct (code x <? code z)%N eqn:E3, (code z <? code x)%N eqn:E3';
    try done;
    rewrite ?N.ltb_lt, ?N.ltb_ge in *; try lia.
  apply IH.
Qed.

Lemma le_refl a : le a a.
Proof. apply ltb_irrefl. Qed.

Lemma le_trans a b c : le a b -> le b c -> le a c.
Proof.
  unfold le. intros Hab Hbc.
  destruct (ltb c a) eqn:Hca; [|done].
  destruct (ltb a b) eqn:E.
  - by rewrite (ltb_trans _ _ _ Hca E) in Hbc.
  - rewrite (ltb_total _ _ E Hab) in Hca. congruence.
Qed.

Lemma le_total a b : le a b \/ le b a.
Proof.
  unfold le. destruct (ltb b a) eqn:E; [right; by apply ltb_asym | by left].
Qed.

(** ** [sorted] sorts, keeps the elements, and leaves a sorted list alone *)

Section SortedFacts.
Context {A : Type} (key : A -> str).

Lemma insert_by_Permutation x l : Permutation (x :: l) (insert_by key x l).
Proof.
  induction l as [|y l IH]; simpl; [done|].
  destruct (ltb (key y) (key x)); [|done].
  rewrite perm_swap. by constructor.
Qed.

Lemma sorted_by_Permutation l : Permutation l (sorted_by key l).
Proof.
  induction l as [|x l IH]; simpl; [done|].
  rewrite <- insert_by_Permutation. by constructor.
Qed.

Lemma insert_by_HdRel a x l :
  key_le key a x -> HdRel (key_le key) a l -> HdRel (key_le key) a (insert_by key x l).
Proof.
  intros Hax Hal. destruct l as [|y l]; simpl; [by constructor|].
  destruct (ltb (key y) (key x)); constructor; [|done].
  by inversion Hal.
Qed.

Lemma insert_by_Sorted x l : Sorted (key_le key) l -> Sorted (key_le key) (insert_by key x l).
Proof.
  induction 1 as [|y l Hl IH Hy]; simpl; [by repeat constructor|].
  destruct (ltb (key y) (key x)) eqn:E.
  - constructor; [done|]. apply insert_by_HdRel; [|done].
    unfold key_le, le. by apply ltb_asym.
  - constructor; [by constructor|]. by constructor.
Qed.

Lemma sorted_by_Sorted l : Sorted (key_le key) (sorted_by key l).
Proof. induction l; simpl; [constructor | by apply insert_by_Sorted]. Qed.

Lemma sorted_by_fixed l : Sorted (key_le key) l -> sorted_by key l = l.
Proof.
  induction 1 as [|x l Hl IH Hx]; simpl; [done|].
  rewrite IH. destruct Hx as [|y l Hxy]; simpl; [done|].
  unfold key_le, le in Hxy. by rewrite Hxy.
Qed.

Lemma sorted_by_idem l : sorted_by key (sorted_by key l) = sorted_by key l.
Proof. apply sorted_by_fixed, sorted_by_Sorted. Qed.
End SortedFacts.

Lemma sorted_Sorted l : Sorted le (sorted l).
Proof. apply (sorted_by_Sorted (fun s => s)). Qed.

Lemma sorted_Permutation l : Permutation l (sorted l).
Proof. apply sorted_by_Permutation. Qed.

Lemma sorted_fixed l : Sorted le l -> sorted l = l.
Proof. apply (sorted_by_fixed (fun s => s)). Qed.

End PyFacts.

(** ** Lines of a text *)

Module LineFacts.
Import PyFacts.

Lemma readlines_no_newline x : no_newline x -> x <> [] -> readlines x = [x].
Proof.
  induction 1 as [|c x Hc Hx IH]; [done|]. intros _.
  simpl. rewrite Hc. destruct x as [|d x]; [done|].
  rewrite IH; done.
Qed.

Lemma readlines_line x rest :
  no_newline x -> readlines (x ++ newline :: rest) = (x ++ nl) :: readlines rest.
Proof.
  induction 1 as [|c x Hc Hx IH]; [done|].
  rewrite <- !app_comm_cons. cbn [readlines]. by rewrite Hc, IH.
Qed.

Lemma readlines_join L :
  Forall (fun x => no_newline x /\ x <> []) L ->
  readlines (join nl L) = lines_of L.
Proof.
  induction 1 as [|x L [Hx Hne] HL IH]; [done|].
  destruct L as [|y L].
  - by apply readlines_no_newline.
  - change (join nl (x :: y :: L)) with (x ++ newline :: join nl (y :: L)).
    rewrite readlines_line by done. by rewrite IH.
Qed.

Lemma readlines_lines s : Forall is_line (readlines s).
Proof.
  induction s as [|c s IH]; [constructor|].
  cbn [readlines]. destruct (eqb_char c newline) eqn:Hc.
  - constructor; [|done]. exists []. split; [constructor|left].
    apply Ascii.eqb_eq in Hc. by subst.
  - destruct (readlines s) as [|l ls].
    + repeat constructor. exists [c]. split; [by repeat constructor | by right].
    + inversion IH as [|? ? (body & Hb & Hl) Hls]; subst.
      constructor; [|done]. exists (c :: body). split; [by constructor|].
      destruct Hl as [-> | ->]; [by left | by right].
Qed.

Lemma truthy_title_from b s : truthy (title_from b s) = truthy s.
Proof. by destruct s. Qed.

Lemma name_of_idem l : name_of (name_of l) = name_of l.
Proof.
  unfold name_of. by rewrite <- strip_title, title_idem, strip_idem.
Qed.

Lemma name_of_snoc_newline l : name_of (l ++ nl) = name_of l.
Proof.
  unfold name_of, title. by rewrite title_from_snoc_newline, strip_snoc_newline.
Qed.

Lemma truthy_name_of l : truthy (name_of l) = truthy (strip l).
Proof. unfold name_of. rewrite strip_title. apply truthy_title_from. Qed.

Lemma name_of_clean l : is_line l -> truthy (strip l) = true -> clean (name_of l).
Proof.
  intros (body & Hb & Hl) Hne. repeat split.
  - assert (name_of l = name_of body) as ->
      by (destruct Hl as [-> | ->]; [apply name_of_snoc_newline | done]).
    by apply strip_Forall, title_from_no_newline.
  - intros E. rewrite <- truthy_name_of, E in Hne. done.
  - apply name_of_idem.
Qed.

Lemma clean_not_blank n : clean n -> truthy (strip n) = true.
Proof.
  intros (_ & Hne & Hn). rewrite <- truthy_name_of, Hn. by destruct n.
Qed.

Lemma names_of_lines_of L :
  Forall clean L ->
  map name_of (filter (fun l => truthy (strip l)) (lines_of L)) = L.
Proof.
  induction 1 as [|x L Hx HL IH]; [done|].
  pose proof (clean_not_blank x Hx) as Hnb.
  destruct Hx as (_ & _ & Hx).
  destruct L as [|y L].
  - cbn [lines_of]. rewrite filter_cons, decide_True by (by rewrite Hnb).
    simpl. by rewrite Hx.
  - change (lines_of (x :: y :: L)) with ((x ++ nl) :: lines_of (y :: L)).
    rewrite filter_cons, decide_True by (by rewrite strip_snoc_newline, Hnb).
    rewrite map_cons, name_of_snoc_newline, Hx. by rewrite IH.
Qed.

Lemma names_of_clean data : Forall clean (names_of data).
Proof.
  unfold names_of. rewrite <- sorted_Permutation.
  apply Forall_forall. intros n Hn.
  apply list_elem_of_In, in_map_iff in Hn as (l & <- & Hl).
  apply list_elem_of_In, list_elem_of_filter in Hl as [Hnb Hl].
  apply name_of_clean.
  - pose proof (readlines_lines data) as H.
    rewrite Forall_forall in H. by apply H.
  - by destruct (truthy (strip l)).
Qed.

Lemma names_of_join data :
  names_of (join nl (names_of data)) = names_of data.
Proof.
  pose proof (names_of_clean data) as Hc.
  unfold names_of at 1.
  rewrite readlines_join.
  - rewrite names_of_lines_of by done. apply sorted_fixed, sorted_Sorted.
  - eapply Forall_impl; [exact Hc|]. by intros ? (? & ? & ?).
Qed.

End LineFacts.

(** ** [sort_wordlist] *)

Module WordlistFacts.
Import PyFacts LineFacts.

(** On a readable text file [sort_wordlist] returns the sorted names and
    rewrites the file with them, one per line. *)
Lemma sort_wordlist_text file_path w data :
  files w !! file_path = Some (Text data) ->
  Utils.sort_wordlist file_path w =
  (Return (names_of data),
   set_files (insert file_path (Text (join nl (names_of data)))) w).
Proof.
  intros H. unfold Utils.sort_wordlist, bind, try_except, read_text.
  rewrite H. reflexivity.
Qed.

(** Otherwise it exits with status 1 and touches nothing. *)
Lemma sort_wordlist_unreadable file_path w :
  (forall data, files w !! file_path <> Some (Text data)) ->
  Utils.sort_wordlist file_path w = (Exit 1, w).
Proof.
  intros H. unfold Utils.sort_wordlist, bind, try_except, read_text.
  destruct (files w !! file_path) as [[]|] eqn:E; try reflexivity.
  by destruct (H data).
Qed.

Lemma set_files_insert_twice p c w :
  set_files (insert p c) (set_files (insert p c) w) = set_files (insert p c) w.
Proof. unfold set_files. simpl. by rewrite insert_insert_eq. Qed.

Lemma names_of_spec data :
  Sorted le (names_of data) /\
  Permutation (names_of data)
    (map name_of (filter (fun l => truthy (strip l)) (readlines data))) /\
  Forall clean (names_of data).
Proof.
  split; [apply sorted_Sorted|]. split; [|apply names_of_clean].
  symmetry. apply sorted_Permutation.
Qed.

(** [read_wordlist] of utils.py leaves the file as [sort_wordlist] wrote it. *)
Lemma read_wordlist_files file_path w :
  files (snd (Utils.read_wordlist file_path w)) =
  files (snd (Utils.sort_wordlist file_path w)).
Proof.
  unfold Utils.read_wordlist, bind.
  destruct (Utils.sort_wordlist file_path w) as [[names| | |] w']; try done.
  cbn [snd]. destruct (existsb _ names); [done|].
  by destruct (negb _).
Qed.

End WordlistFacts.


(** ** [sort_csv] *)

Module CsvFacts.
Import PyFacts LineFacts.

Lemma split_on_length sep s : length (split_on sep s) = S (count sep s).
Proof.
  unfold count. induction s as [|c s IH]; [done|].
  cbn [split_on]. rewrite filter_cons.
  destruct (eqb_char c sep); simpl.
  - by rewrite IH.
  - destruct (split_on sep s); simpl in *; lia.
Qed.

Lemma second_field_has_comma row :
  has_comma row -> Utils.second_field row = Some (second_key row).
Proof.
  unfold has_comma, second_key, Utils.second_field. intros H.
  pose proof (split_on_length ","%char row) as Hl.
  destruct (split_on ","%char row) as [|a [|b l]]; simpl in *; try lia.
  done.
Qed.

Lemma second_field_no_comma row :
  count ","%char row = 0 -> Utils.second_field row = None.
Proof.
  unfold Utils.second_field. intros H.
  pose proof (split_on_length ","%char row) as Hl. rewrite H in Hl.
  by destruct (split_on ","%char row) as [|a [|b l]].
Qed.

Lemma mapM_second_field rows :
  Forall has_comma rows ->
  mapM Utils.second_field rows = Some (map second_key rows).
Proof.
  induction 1 as [|r rows Hr Hrows IH]; [done|].
  cbn [mapM]. rewrite (second_field_has_comma r Hr). simpl. by rewrite IH.
Qed.

(** Sorting the rows paired with their keys is sorting them by the key. *)
Section Decorate.
Context {A : Type} (key : A -> str).

Lemma zip_keys l : zip (map key l) l = decorate key l.
Proof. induction l as [|x l IH]; simpl; [done|]. by rewrite IH. Qed.

Lemma insert_by_decorate x l :
  insert_by fst (key x, x) (decorate key l) = decorate key (insert_by key x l).
Proof.
  induction l as [|y l IH]; [done|]. simpl.
  destruct (ltb (key y) (key x)); simpl; [by rewrite IH | done].
Qed.

Lemma sorted_by_decorate l :
  sorted_by fst (decorate key l) = decorate key (sorted_by key l).
Proof.
  induction l as [|x l IH]; [done|]. simpl.
  change ((key x, x) :: decorate key l) with (decorate key (x :: l)).
  cbn [decorate map sorted_by]. fold (decorate key l).
  by rewrite IH, insert_by_decorate.
Qed.

Lemma undecorate l : map snd (decorate key l) = l.
Proof. induction l as [|x l IH]; simpl; [done|]. by rewrite IH. Qed.
End Decorate.

Lemma sorted_by_second_field_ok rows w :
  Forall has_comma rows ->
  Utils.sorted_by_second_field rows w = (Return (sorted_by second_key rows), w).
Proof.
  intros H. unfold Utils.sorted_by_second_field.
  rewrite (mapM_second_field rows H), zip_keys, sorted_by_decorate, undecorate.
  reflexivity.
Qed.

Lemma mapM_second_field_None rows :
  Exists (fun row => count ","%char row = 0) rows ->
  mapM Utils.second_field rows = None.
Proof.
  induction 1 as [r rows Hr | r rows Hrows IH]; cbn [mapM].
  - by rewrite (second_field_no_comma r Hr).
  - rewrite IH. by destruct (Utils.second_field r).
Qed.

Lemma sorted_by_second_field_raises rows w :
  Exists (fun row => count ","%char row = 0) rows ->
  Utils.sorted_by_second_field rows w = (Raise IndexError, w).
Proof.
  intros H. unfold Utils.sorted_by_second_field.
  by rewrite (mapM_second_field_None rows H).
Qed.

Lemma data_rows_not_blank rows : Forall (fun row => row <> []) (data_rows_of rows).
Proof.
  unfold data_rows_of. apply Forall_forall. intros r Hr.
  apply list_elem_of_In, in_map_iff in Hr as (l & <- & Hl).
  apply list_elem_of_In, list_elem_of_filter in Hl as [Hl _].
  by destruct (strip l).
Qed.

(** What [sort_csv] does to a file with a first line and at least one row
    that is not blank. *)
Lemma sort_csv_run file_path w data first rows first_row others :
  files w !! file_path = Some (Text data) ->
  readlines data = first :: rows ->
  data_rows_of rows = first_row :: others ->
  Utils.sort_csv file_path w =
  match (if Nat.eqb (count ","%char first_row) 1
         then ret (sorted (data_rows_of rows))
         else Utils.sorted_by_second_field (data_rows_of rows)) w with
  | (Return sorted_data, w') =>
      (Return tt,
       set_files (insert file_path (Text (join nl (strip first :: sorted_data)))) w')
  | (Exit n, w') => (Exit n, w')
  | (Raise e, w') => (Raise e, w')
  | (Diverge, w') => (Diverge, w')
  end.
Proof.
  intros Hf Hl Hd. unfold Utils.sort_csv, bind at 1, try_except at 1.
  unfold bind at 1, read_text. rewrite Hf, Hl. cbn [ret].
  fold (data_rows_of rows). rewrite Hd.
  unfold bind.
  destruct (if Nat.eqb (count ","%char first_row) 1 then _ else _) as [[] ?];
    reflexivity.
Qed.

End CsvFacts.

(** C10, as the code has it.  Take a CSV file with a first line and at least
    one later line that is not blank, and let the data rows be these later
    lines with their surrounding white space stripped.  If the first data row
    has exactly one comma, or it has more and every data row has at least
    one, [sort_csv] rewrites the file as the stripped first line followed by
    a permutation of the data rows, none of them blank; the rows are ordered
    by whole line in the first case and by their stripped second field in
    the second. *)
Theorem sort_csv_sorts_rows (file_path : str) (w : world)
    (data first : str) (rows : list str) (first_row : str) (others : list str) :
  files w !! file_path = Some (Text data) ->
  readlines data = first :: rows ->
  data_rows_of rows = first_row :: others ->
  (count ","%char first_row <> 1 ->
   Forall has_comma (first_row :: others)) ->
  exists sorted_data,
    Utils.sort_csv file_path w =
      (Return tt,
       set_files (insert file_path (Text (join nl (strip first :: sorted_data)))) w) /\
    Permutation (first_row :: others) sorted_data /\
    Forall (fun row => row <> []) sorted_data /\
    if Nat.eqb (count ","%char first_row) 1
    then Sorted le sorted_data
    else Sorted (fun a b => le (second_key a) (second_key b))
                sorted_data.
Proof.
  intros Hf Hl Hd Hcommas.
  rewrite (CsvFacts.sort_csv_run _ _ _ _ _ _ _ Hf Hl Hd).
  pose proof (CsvFacts.data_rows_not_blank rows) as Hnb.
  rewrite Hd in *.
  destruct (Nat.eqb (count ","%char first_row) 1) eqn:E.
  - exists (sorted (first_row :: others)). repeat split.
    + apply PyFacts.sorted_Permutation.
    + by rewrite <- PyFacts.sorted_Permutation.
    + apply PyFacts.sorted_Sorted.
  - apply Nat.eqb_neq in E.
    rewrite CsvFacts.sorted_by_second_field_ok by auto.
    exists (sorted_by second_key (first_row :: others)). repeat split.
    + apply PyFacts.sorted_by_Permutation.
    + by rewrite <- PyFacts.sorted_by_Permutation.
    + apply (PyFacts.sorted_by_Sorted second_key).
Qed.

Lemma sort_csv_sorts_rows_witness :
  exists sorted_data,
    Utils.sort_csv (lit "list.csv")
      (csv_world (lit "list.csv") (lit "No,Full Name,Email" ++ nl ++
                                   lit "1,Zoe,z@x.org" ++ nl ++ nl ++
                                   lit "2,Adam,a@x.org" ++ nl)) =
      (Return tt,
       set_files (insert (lit "list.csv")
                    (Text (join nl (strip (lit "No,Full Name,Email" ++ nl)
                                    :: sorted_data))))
         (csv_world (lit "list.csv") (lit "No,Full Name,Email" ++ nl ++
                                      lit "1,Zoe,z@x.org" ++ nl ++ nl ++
                                      lit "2,Adam,a@x.org" ++ nl))) /\
    Permutation (lit "1,Zoe,z@x.org" :: [lit "2,Adam,a@x.org"]) sorted_data /\
    Forall (fun row => row <> []) sorted_data /\
    if Nat.eqb (count ","%char (lit "1,Zoe,z@x.org")) 1
    then Sorted le sorted_data
    else Sorted (fun a b => le (second_key a) (second_key b))
                sorted_data.
Proof.
  apply (sort_csv_sorts_rows (lit "list.csv") _
           (lit "No,Full Name,Email" ++ nl ++ lit "1,Zoe,z@x.org" ++ nl ++ nl ++
            lit "2,Adam,a@x.org" ++ nl)
           (lit "No,Full Name,Email" ++ nl)
           [lit "1,Zoe,z@x.org" ++ nl; nl; lit "2,Adam,a@x.org" ++ nl]).
  - reflexivity.
  - reflexivity.
  - reflexivity.
  - intros _. repeat constructor; vm_compute; lia.
Defined.

(** C10 as stated fails: the header is written without its surrounding white
    space, and the rows are ordered by the second field stripped, not as it
    stands between the commas. *)
Lemma sort_csv_counterexample :
  let data := lit "No,Full Name,Email " ++ nl ++
              lit "1, Bob,b@x.org" ++ nl ++ lit "2,Ann,a@x.org" ++ nl in
  let result := lit "No,Full Name,Email" ++ nl ++
                lit "2,Ann,a@x.org" ++ nl ++ lit "1, Bob,b@x.org" in
  Utils.sort_csv (lit "list.csv") (csv_world (lit "list.csv") data) =
    (Return tt, csv_world (lit "list.csv") result) /\
  2 <= count ","%char (lit "1, Bob,b@x.org") /\
  hd [] (readlines result) <> hd [] (readlines data) /\
  ~ Sorted (fun a b => le (raw_second_field a) (raw_second_field b))
           (tl (readlines result)).
Proof.
  split; [|split; [|split]].
  - vm_compute. reflexivity.
  - vm_compute. lia.
  - vm_compute. congruence.
  - intros H. vm_compute in H.
    inversion H as [|? ? _ Hhd]; subst. inversion Hhd as [|? ? Hle]; subst.
    vm_compute in Hle. discriminate.
Qed.

(** ** The certificate generator *)

Module CertFacts.
Import CertificateGenerator.

Lemma with_files_files m w : files (with_files m w) = m.
Proof. reflexivity. Qed.

Lemma with_files_same w : with_files (files w) w = w.
Proof. by destruct w. Qed.

Lemma with_files_twice m m' w : with_files m (with_files m' w) = with_files m w.
Proof. reflexivity. Qed.

(** One certificate, when the template can be opened. *)
Lemma write_certificate_ok P name w :
  is_Some (files w !! template_file_path P) ->
  write_certificate P name w =
  (Return tt, with_files (store_certificate P (files w) name) w).
Proof.
  intros [t Ht]. unfold write_certificate, bind, write_file, modify, read_bytes.
  cbn [files set_files]. rewrite lookup_insert_eq. cbn [files set_files].
  rewrite lookup_insert, Ht.
  by destruct (decide (tmp_file P = template_file_path P)).
Qed.

Lemma store_certificate_template P m name :
  is_Some (m !! template_file_path P) ->
  is_Some (store_certificate P m name !! template_file_path P).
Proof.
  intros H. unfold store_certificate.
  rewrite !lookup_insert. repeat case_decide; eauto.
Qed.

Lemma for_each_name_ok P lines w :
  is_Some (files w !! template_file_path P) ->
  for_each_name P lines w =
  (Return tt,
   with_files (fold_left (store_certificate P) (certificate_names lines) (files w)) w).
Proof.
  revert w. induction lines as [|line lines IH]; intros w Ht.
  - unfold certificate_names. simpl. by rewrite with_files_same.
  - cbn [for_each_name]. unfold certificate_names. cbn [map].
    rewrite filter_cons. destruct (truthy (strip line)) eqn:E; cbn [negb].
    + rewrite decide_True by done. unfold bind.
      rewrite write_certificate_ok by done.
      rewrite IH by (by apply store_certificate_template).
      reflexivity.
    + rewrite decide_False by (by intros []). by apply IH.
Qed.

(** A path that is neither the temporary file nor a certificate keeps its
    content, whatever becomes of the run. *)
Lemma write_certificate_untouched P name w path :
  untouched P path ->
  files (snd (write_certificate P name w)) !! path = files w !! path.
Proof.
  intros [Htmp Hcert].
  unfold write_certificate, bind, write_file, modify, read_bytes.
  cbn [files set_files]. rewrite lookup_insert_eq. cbn [files set_files].
  destruct (<[tmp_file P:=Overlay name]> (files w) !! template_file_path P);
    cbn [snd files set_files].
  - rewrite !lookup_insert_ne; [done|done|]. intros E. by apply (Hcert name).
  - by rewrite lookup_insert_ne.
Qed.

Lemma for_each_name_untouched P lines w path :
  untouched P path ->
  files (snd (for_each_name P lines w)) !! path = files w !! path.
Proof.
  intros Hp. revert w. induction lines as [|line lines IH]; intros w; [done|].
  cbn [for_each_name]. destruct (truthy (strip line)); cbn [negb]; [|apply IH].
  unfold bind.
  pose proof (write_certificate_untouched P (strip line) w path Hp) as Hw.
  destruct (write_certificate P (strip line) w) as [[] w']; cbn [snd] in *;
    try done.
  by rewrite IH.
Qed.

Lemma certificate_read_wordlist_files file_path w :
  snd (read_wordlist file_path w) = w.
Proof.
  unfold read_wordlist, try_except, bind, read_text.
  by destruct (files w !! file_path) as [[]|].
Qed.

Lemma create_certificate_untouched P w path :
  untouched P path ->
  files (snd (create_certificate P w)) !! path = files w !! path.
Proof.
  intros Hp. unfold create_certificate, bind at 1, read_bytes.
  destruct (files w !! font_path P); [|done].
  unfold bind. pose proof (certificate_read_wordlist_files (wordlist_file_path P) w) as Hr.
  destruct (read_wordlist (wordlist_file_path P) w) as [[] w']; cbn [snd] in *;
    subst; try done.
  by apply for_each_name_untouched.
Qed.

Lemma fold_store_other P names m path :
  path <> tmp_file P ->
  path ∉ map (certificate_path P) names ->
  fold_left (store_certificate P) names m !! path = m !! path.
Proof.
  intros Htmp. revert m. induction names as [|n names IH]; intros m Hp; [done|].
  cbn [fold_left]. rewrite IH.
  - unfold store_certificate. rewrite !lookup_insert_ne; [done|done|].
    intros E. apply Hp. rewrite <- E. left.
  - intros H. apply Hp. by right.
Qed.

Lemma fold_store_certificate P names m name :
  NoDup (map (certificate_path P) names) ->
  (forall n, certificate_path P n <> tmp_file P) ->
  name ∈ names ->
  fold_left (store_certificate P) names m !! certificate_path P name =
  Some (Certificate (template_file_path P) name).
Proof.
  intros Hnd Htmp. revert m. induction names as [|n names IH]; intros m Hin.
  - by apply not_elem_of_nil in Hin.
  - cbn [map] in Hnd. apply NoDup_cons in Hnd as [Hn Hnd]. cbn [fold_left].
    destruct (decide (name ∈ names)) as [Hin'|Hin']; [by apply IH|].
    apply elem_of_cons in Hin as [->|Hin]; [|done].
    rewrite fold_store_other by (done || by apply list_elem_of_In).
    unfold store_certificate. apply lookup_insert_eq.
Qed.

Lemma NoDup_map_injective {A B} (f : A -> B) (l : list A) :
  (forall a b, f a = f b -> a = b) -> NoDup l -> NoDup (map f l).
Proof.
  intros Hinj. induction l as [|a l IH]; intros Hnd; simpl; [constructor|].
  apply NoDup_cons in Hnd as [Ha Hl]. apply NoDup_cons. split; [|by apply IH].
  intros Hin. apply list_elem_of_In, in_map_iff in Hin as (b & E & Hb).
  apply Hinj in E. subst. by apply Ha, list_elem_of_In.
Qed.

Lemma certificate_path_NoDup P names :
  NoDup (map certificate_filename names) ->
  NoDup (map (certificate_path P) names).
Proof.
  intros H. unfold certificate_path.
  rewrite <- (map_map certificate_filename
                (fun f => OUTPUT_DIRECTORY_PATH P ++ lit "/" ++ f)).
  apply NoDup_map_injective; [|done].
  intros a b E. by apply app_inv_head, app_inv_head in E.
Qed.

Lemma startswith_app p s : startswith p (p ++ s) = true.
Proof.
  unfold startswith. apply bool_decide_eq_true. by rewrite take_app_length.
Qed.

Lemma certificate_path_not_tmp P :
  startswith (OUTPUT_DIRECTORY_PATH P ++ lit "/") (tmp_file P) = false ->
  forall n, certificate_path P n <> tmp_file P.
Proof.
  intros H n E. rewrite <- E in H. unfold certificate_path in H.
  rewrite (app_assoc (OUTPUT_DIRECTORY_PATH P)), startswith_app in H. done.
Qed.

(** What a run with a font, a template and a readable wordlist does. *)
Lemma create_certificate_ok P w data :
  is_Some (files w !! font_path P) ->
  is_Some (files w !! template_file_path P) ->
  files w !! wordlist_file_path P = Some (Text data) ->
  create_certificate P w =
  (Return tt,
   with_files (fold_left (store_certificate P)
                 (certificate_names (readlines data)) (files w)) w).
Proof.
  intros [f Hf] Ht Hw. unfold create_certificate, bind at 1, read_bytes.
  rewrite Hf. unfold bind, read_wordlist, try_except, bind, read_text.
  rewrite Hw. cbn [ret]. by apply for_each_name_ok.
Qed.

Lemma endswith_app p x t :
  length p <= length t -> endswith p (x ++ t) = endswith p t.
Proof.
  intros H. unfold endswith. rewrite length_app.
  rewrite drop_app_ge by lia.
  by replace (length x + length t - length p - length x)
    with (length t - length p) by lia.
Qed.

Lemma txt_is_no_certificate path x :
  endswith (lit ".txt") path = true -> path <> x ++ lit "_certificate.pdf".
Proof.
  intros H ->. by rewrite endswith_app in H by (vm_compute; lia).
Qed.

Lemma tmp_file_is_certificate P :
  exists x, tmp_file P = x ++ lit "_certificate.pdf".
Proof.
  unfold tmp_file, os_path_join.
  change (startswith (lit "/") (lit "tmp_certificate.pdf")) with false.
  cbv iota.
  destruct (negb (truthy (TEMPORARY_DIRECTORY_PATH P)) || _).
  - exists (TEMPORARY_DIRECTORY_PATH P ++ lit "tmp"). by rewrite <- app_assoc.
  - exists (TEMPORARY_DIRECTORY_PATH P ++ lit "/tmp"). by rewrite <- app_assoc.
Qed.

Lemma txt_untouched P path :
  endswith (lit ".txt") path = true -> untouched P path.
Proof.
  intros H. split.
  - destruct (tmp_file_is_certificate P) as [x ->].
    by apply txt_is_no_certificate.
  - intros name. unfold certificate_path, certificate_filename.
    rewrite !app_assoc. by apply txt_is_no_certificate.
Qed.

End CertFacts.




(** C4, as the code has it.  The certificate generator reads the wordlist
    with its own [read_wordlist], which only reads: a run leaves the wordlist
    file as it was.  Sorting and rewriting in place is what [sort_wordlist]
    of utils.py does, and [read_wordlist] of utils.py through it: the file is
    left holding the names of the wordlist (its lines that are not blank,
    stripped and in title case) in sorted order, one per line. *)
Theorem wordlist_rewritten_by_utils_only
    (P : CertificateGenerator.paths) (w : world) (file_path data : str) :
  endswith (lit ".txt") (CertificateGenerator.wordlist_file_path P) = true ->
  files w !! file_path = Some (Text data) ->
  files (snd (CertificateGenerator.create_certificate P w))
    !! CertificateGenerator.wordlist_file_path P =
  files w !! CertificateGenerator.wordlist_file_path P /\
  exists names,
    Utils.sort_wordlist file_path w =
      (Return names, set_files (insert file_path (Text (join nl names))) w) /\
    files (snd (Utils.read_wordlist file_path w)) !! file_path =
      Some (Text (join nl names)) /\
    Sorted le names /\
    Permutation names
      (map name_of (filter (fun l => truthy (strip l)) (readlines data))) /\
    Forall clean names.
Proof.
  intros Htxt Hf. split.
  - by apply CertFacts.create_certificate_untouched, CertFacts.txt_untouched.
  - exists (names_of data).
    pose proof (WordlistFacts.sort_wordlist_text _ _ _ Hf) as Hs.
    split; [done|]. split; [|apply WordlistFacts.names_of_spec].
    rewrite WordlistFacts.read_wordlist_files, Hs. apply lookup_insert_eq.
Qed.

Lemma wordlist_rewritten_by_utils_only_witness :
  let data := lit "zoe" ++ nl ++ nl ++ lit " adam smith" ++ nl in
  let w := certificate_world data in
  files (snd (CertificateGenerator.create_certificate certificate_layout w))
    !! lit "Wordlist/wordlist.txt" = files w !! lit "Wordlist/wordlist.txt" /\
  exists names,
    Utils.sort_wordlist (lit "Wordlist/wordlist.txt") w =
      (Return names,
       set_files (insert (lit "Wordlist/wordlist.txt") (Text (join nl names))) w) /\
    files (snd (Utils.read_wordlist (lit "Wordlist/wordlist.txt") w))
      !! lit "Wordlist/wordlist.txt" = Some (Text (join nl names)) /\
    Sorted le names /\
    Permutation names
      (map name_of (filter (fun l => truthy (strip l)) (readlines data))) /\
    Forall clean names.
Proof.
  intros data w.
  apply (wordlist_rewritten_by_utils_only certificate_layout w
           (lit "Wordlist/wordlist.txt") data).
  - reflexivity.
  - reflexivity.
Defined.

(** C4 as stated fails: after a run of the certificate flow the wordlist is
    still in the order it was written in. *)
Lemma certificate_flow_counterexample :
  let data := lit "Zoe" ++ nl ++ lit "Adam" ++ nl in
  let w := certificate_world data in
  fst (CertificateGenerator.create_certificate certificate_layout w) = Return tt /\
  files (snd (CertificateGenerator.create_certificate certificate_layout w))
    !! lit "Wordlist/wordlist.txt" = Some (Text data) /\
  map strip (readlines data) = [lit "Zoe"; lit "Adam"] /\
  ~ Sorted le [lit "Zoe"; lit "Adam"].
Proof.
  split; [vm_compute; reflexivity|].
  split; [vm_compute; reflexivity|].
  split; [reflexivity|].
  intros H. inversion H as [|? ? _ Hhd]; subst.
  inversion Hhd as [|? ? Hle]; subst. vm_compute in Hle. discriminate.
Qed.

(** ** The QR code generator *)

Module QRFacts.
Import QRCodeGenerator.

(** [str(n)] tells the numbers apart. *)
Lemma lit_inj a b : lit a = lit b -> a = b.
Proof.
  unfold lit. intros H.
  rewrite <- (string_of_list_ascii_of_string a), <- (string_of_list_ascii_of_string b).
  by rewrite H.
Qed.

Lemma str_of_nat_inj n m : str_of_nat n = str_of_nat m -> n = m.
Proof.
  unfold str_of_nat. intros H. apply lit_inj in H.
  assert (Some (Nat.to_uint n) = Some (Nat.to_uint m)) as E
    by (by rewrite <- !NilEmpty.usu, H).
  injection E as E. by apply DecimalNat.Unsigned.to_uint_inj.
Qed.

Lemma os_path_join_inj a b b' :
  startswith (lit "/") b = startswith (lit "/") b' ->
  os_path_join a b = os_path_join a b' -> b = b'.
Proof.
  unfold os_path_join. intros ->.
  destruct (startswith (lit "/") b'); [done|].
  destruct (negb (truthy a) || endswith (lit "/") a); intros E.
  - by apply app_inv_head in E.
  - by apply app_inv_head, app_inv_head in E.
Qed.

Lemma startswith_slash_app f c r c' r' :
  c <> "/"%char -> c' <> "/"%char ->
  startswith (lit "/") (f ++ c :: r) = startswith (lit "/") (f ++ c' :: r').
Proof.
  intros Hc Hc'. destruct f as [|d f]; [|done].
  unfold startswith. cbn.
  rewrite !bool_decide_eq_false_2; [done| |]; congruence.
Qed.

Lemma numbered_path_inj P filename extension n m :
  numbered_path P filename extension n = numbered_path P filename extension m ->
  n = m.
Proof.
  unfold numbered_path. intros E.
  apply os_path_join_inj in E; [|by apply startswith_slash_app].
  apply app_inv_head in E. cbn in E. injection E as E.
  apply app_inv_tail in E. by apply str_of_nat_inj.
Qed.

Lemma plain_path_not_numbered P filename extension n :
  plain_path P filename extension <> numbered_path P filename extension n.
Proof.
  unfold plain_path, numbered_path. intros E.
  apply os_path_join_inj in E; [|by apply startswith_slash_app].
  apply app_inv_head in E. discriminate.
Qed.

Lemma candidates_NoDup P filename extension counter n :
  NoDup (candidates P filename extension (plain_path P filename extension) counter n).
Proof.
  unfold candidates. apply NoDup_cons. split.
  - intros H. apply list_elem_of_In, in_map_iff in H as (k & E & _).
    by apply (plain_path_not_numbered P filename extension k).
  - apply CertFacts.NoDup_map_injective; [apply numbered_path_inj | apply NoDup_seq].
Qed.

(** What the loop returns, and what it has seen when the fuel runs out. *)
Lemma free_path_spec P filename extension fuel : forall qr_image_path counter w,
  match free_path fuel P filename extension qr_image_path counter w with
  | (Return path, w') =>
      w' = w /\ files w !! path = None /\
      (path = qr_image_path \/
       is_Some (files w !! qr_image_path) /\
       exists k, counter <= k /\ path = numbered_path P filename extension k /\
         forall c, counter <= c < k ->
           is_Some (files w !! numbered_path P filename extension c))
  | (Diverge, w') =>
      Forall (fun path => is_Some (files w !! path))
             (candidates P filename extension qr_image_path counter (fuel - 1))
      \/ fuel = 0
  | _ => False
  end.
Proof.
  induction fuel as [|fuel IH]; intros q counter w; [by right|].
  cbn [free_path]. unfold bind, os_path_exists.
  destruct (files w !! q) as [c|] eqn:Hq.
  - rewrite bool_decide_eq_true_2 by eauto.
    specialize (IH (numbered_path P filename extension counter) (S counter) w).
    destruct (free_path fuel P filename extension _ (S counter) w) as [[p| | |] w'];
      try done.
    + destruct IH as (-> & Hp & Hcases). split; [done|]. split; [done|].
      right. split; [eauto|].
      destruct Hcases as [-> | (Hc & k & Hk & -> & Hall)].
      * exists counter. split; [lia|]. split; [done|]. intros; lia.
      * exists k. split; [lia|]. split; [done|].
        intros j Hj. destruct (decide (j = counter)) as [->|]; [done|].
        apply Hall. lia.
    + left. unfold candidates. rewrite Nat.sub_succ, Nat.sub_0_r.
      constructor; [eauto|].
      destruct IH as [IH | ->]; [|constructor].
      destruct fuel as [|fuel]; [constructor|].
      rewrite Nat.sub_succ, Nat.sub_0_r in IH. unfold candidates in IH.
      by rewrite <- cons_seq.
  - rewrite bool_decide_eq_false_2 by (by intros [? ?]).
    cbn [ret]. split; [done|]. split; [done|]. by left.
Qed.

(** More candidates than files cannot all exist. *)
Lemma candidates_not_all_exist P filename extension w :
  ~ Forall (fun path => is_Some (files w !! path))
      (candidates P filename extension (plain_path P filename extension) 1
                  (size (files w))).
Proof.
  intros H.
  pose proof (candidates_NoDup P filename extension 1 (size (files w))) as Hnd.
  assert (list_to_set (candidates P filename extension
                         (plain_path P filename extension) 1 (size (files w)))
          ⊆ dom (files w)) as Hsub.
  { intros p Hp. apply elem_of_list_to_set in Hp.
    rewrite Forall_forall in H. by apply elem_of_dom, H. }
  apply subseteq_size in Hsub.
  rewrite size_list_to_set, size_dom in Hsub by done.
  unfold candidates in Hsub. cbn [length] in Hsub.
  rewrite length_map, length_seq in Hsub. lia.
Qed.

End QRFacts.


(** ** Computations that keep the files, computations that end *)

Module FlowFacts.
Import QRCodeGenerator.

Section Keeps.
Context {A B : Type}.

Lemma keeps_ret (v : A) : keeps_files (ret v).
Proof. by intros w. Qed.

Lemma keeps_exit n : keeps_files (@exit A n).
Proof. by intros w. Qed.

Lemma keeps_raise e : keeps_files (@raise A e).
Proof. by intros w. Qed.

Lemma keeps_bind (c : prog A) (k : A -> prog B) :
  keeps_files c -> (forall v, keeps_files (k v)) -> keeps_files (bind c k).
Proof.
  intros Hc Hk w. unfold bind. specialize (Hc w).
  destruct (c w) as [[v| | |] w']; cbn [snd] in *; try done.
  by rewrite Hk.
Qed.

Lemma keeps_try (c : prog A) handler :
  keeps_files c ->
  (forall e h, handler e = Some h -> keeps_files h) ->
  keeps_files (try_except c handler).
Proof.
  intros Hc Hh w. unfold try_except. specialize (Hc w).
  destruct (c w) as [[v| |e|] w']; cbn [snd] in *; try done.
  destruct (handler e) as [h|] eqn:E; [|done].
  by rewrite (Hh e h E).
Qed.

Lemma keeps_try_only (c : prog A) which h :
  keeps_files c -> keeps_files h ->
  keeps_files (try_except c (except_only which h)).
Proof.
  intros Hc Hh. apply keeps_try; [done|]. unfold except_only.
  intros e h'. destruct (which e); congruence.
Qed.

Lemma keeps_try_any (c : prog A) h :
  keeps_files c -> keeps_files h -> keeps_files (try_except c (except_any h)).
Proof.
  intros Hc Hh. apply keeps_try; [done|]. unfold except_any. congruence.
Qed.

Lemma keeps_try_Exception (c : prog A) h :
  keeps_files c -> (forall e, keeps_files (h e)) ->
  keeps_files (try_except c (except_Exception h)).
Proof.
  intros Hc Hh. apply keeps_try; [done|]. unfold except_Exception.
  intros e h'. destruct (is_Exception e); [|done]. intros [= <-]. apply Hh.
Qed.
End Keeps.

Lemma keeps_input : keeps_files input.
Proof. intros w. unfold input. by destruct (stdin w) as [|[]]. Qed.

Lemma keeps_read_bytes path : keeps_files (read_bytes path).
Proof. intros w. unfold read_bytes. by destruct (files w !! path). Qed.

Lemma keeps_read_text path : keeps_files (read_text path).
Proof. intros w. unfold read_text. by destruct (files w !! path) as [[]|]. Qed.

Lemma keeps_os_listdir directory : keeps_files (os_listdir directory).
Proof. by intros w. Qed.

Lemma keeps_os_path_exists path : keeps_files (os_path_exists path).
Proof. by intros w. Qed.

Lemma keeps_logging e : keeps_files (logging e).
Proof. by intros w. Qed.

Ltac keeps_step :=
  first
    [ apply keeps_ret | apply keeps_exit | apply keeps_raise
    | apply keeps_input | apply keeps_read_bytes | apply keeps_read_text
    | apply keeps_os_listdir | apply keeps_os_path_exists | apply keeps_logging
    | apply keeps_try_only | apply keeps_try_any
    | apply keeps_try_Exception; [|intros ?]
    | apply keeps_bind; [|intros ?]
    | match goal with
      | |- keeps_files (if ?b then _ else _) => destruct b
      | |- keeps_files (match ?x with _ => _ end) => destruct x
      | |- keeps_files (let '(_, _) := ?x in _) => destruct x
      end
    | progress cbv zeta ].

Ltac keeps := repeat keeps_step.

Lemma keeps_get_text : keeps_files get_text.
Proof.
  unfold get_text. apply keeps_bind.
  - intros w. by destruct (read_text_lines (stdin w) [] 0).
  - intros text_lines. keeps.
Qed.

Lemma keeps_select_font directory : keeps_files (Utils.select_font directory).
Proof. unfold Utils.select_font, Utils.get_files. keeps. Qed.

Lemma keeps_build_image P : keeps_files (build_image P).
Proof.
  unfold build_image, ask_style_and_color, add_center_image, add_title.
  apply keeps_bind; [apply keeps_get_text|]. intros input_text.
  repeat first [apply keeps_select_font | keeps_step].
Qed.

Section Total.
Context {A B : Type}.

Lemma total_ret (v : A) : total (ret v).
Proof. by intros w. Qed.

Lemma total_exit n : total (@exit A n).
Proof. by intros w. Qed.

Lemma total_raise e : total (@raise A e).
Proof. by intros w. Qed.

Lemma total_bind (c : prog A) (k : A -> prog B) :
  total c -> (forall v, total (k v)) -> total (bind c k).
Proof.
  intros Hc Hk w. unfold bind. specialize (Hc w).
  destruct (c w) as [[v| | |] w']; cbn [fst] in *; try done.
  apply Hk.
Qed.

Lemma total_try (c : prog A) handler :
  total c -> (forall e h, handler e = Some h -> total h) ->
  total (try_except c handler).
Proof.
  intros Hc Hh w. unfold try_except. specialize (Hc w).
  destruct (c w) as [[v| |e|] w']; cbn [fst] in *; try done.
  destruct (handler e) as [h|] eqn:E; [|done].
  apply (Hh e h E).
Qed.

Lemma total_try_only (c : prog A) which h :
  total c -> total h -> total (try_except c (except_only which h)).
Proof.
  intros Hc Hh. apply total_try; [done|]. unfold except_only.
  intros e h'. destruct (which e); congruence.
Qed.

Lemma total_try_any (c : prog A) h :
  total c -> total h -> total (try_except c (except_any h)).
Proof.
  intros Hc Hh. apply total_try; [done|]. unfold except_any. congruence.
Qed.

Lemma total_try_Exception (c : prog A) h :
  total c -> (forall e, total (h e)) ->
  total (try_except c (except_Exception h)).
Proof.
  intros Hc Hh. apply total_try; [done|]. unfold except_Exception.
  intros e h'. destruct (is_Exception e); [|done]. intros [= <-]. apply Hh.
Qed.
End Total.

Lemma total_input : total input.
Proof. intros w. unfold input. by destruct (stdin w) as [|[]]. Qed.

Lemma total_read_bytes path : total (read_bytes path).
Proof. intros w. unfold read_bytes. by destruct (files w !! path). Qed.

Lemma total_read_text path : total (read_text path).
Proof. intros w. unfold read_text. by destruct (files w !! path) as [[]|]. Qed.

Lemma total_os_listdir directory : total (os_listdir directory).
Proof. by intros w. Qed.

Lemma total_write_file path c : total (write_file path c).
Proof. by intros w. Qed.

Ltac total_step :=
  first
    [ apply total_ret | apply total_exit | apply total_raise
    | apply total_input | apply total_read_bytes | apply total_read_text
    | apply total_os_listdir | apply total_write_file
    | apply total_try_only | apply total_try_any
    | apply total_try_Exception; [|intros ?]
    | apply total_bind; [|intros ?]
    | match goal with
      | |- total (if ?b then _ else _) => destruct b
      | |- total (match ?x with _ => _ end) => destruct x
      | |- total (let '(_, _) := ?x in _) => destruct x
      end
    | progress cbv zeta ].

Ltac total := repeat total_step.

Lemma read_text_lines_ends keys : forall text_lines enter_pressed,
  fst (read_text_lines keys text_lines enter_pressed) <> Diverge.
Proof.
  induction keys as [|[line|] keys IH]; intros text_lines n; cbn [read_text_lines];
    try done.
  destruct (negb (truthy line)); [|apply IH].
  destruct (Nat.ltb 1 (S n)); [done|apply IH].
Qed.

Lemma total_get_text : total get_text.
Proof.
  unfold get_text. apply total_bind.
  - intros w. pose proof (read_text_lines_ends (stdin w) [] 0) as H.
    by destruct (read_text_lines (stdin w) [] 0).
  - intros text_lines. total.
Qed.

Lemma total_build_image P : total (build_image P).
Proof.
  unfold build_image, ask_style_and_color, add_center_image, add_title,
    Utils.select_font, Utils.get_files.
  apply total_bind; [apply total_get_text|]. intros input_text. total.
Qed.

(** Every turn of the menu takes one line. *)
Lemma extension_menu_reads w answer w' :
  extension_menu w = (Return answer, w') -> S (length (stdin w')) = length (stdin w).
Proof.
  unfold extension_menu, bind, try_except, input.
  destruct (stdin w) as [|[text|] rest] eqn:E; cbn; try done.
  repeat (match goal with |- context [if ?b then _ else _] => destruct b end);
    cbn; intros [= _ <-]; done.
Qed.

Lemma ask_extension_ends fuel : forall w,
  length (stdin w) < fuel -> fst (ask_extension fuel w) <> Diverge.
Proof.
  induction fuel as [|fuel IH]; intros w Hlen; [lia|].
  cbn [ask_extension]. unfold bind.
  destruct (extension_menu w) as [[[chosen|]| | |] w'] eqn:E; cbn [fst]; try done.
  - apply IH. apply extension_menu_reads in E. lia.
  - revert E. unfold extension_menu, bind, try_except, input.
    destruct (stdin w) as [|[text|] rest]; cbn; try done.
    repeat (match goal with |- context [if ?b then _ else _] => destruct b end);
      cbn; done.
Qed.

Lemma total_save_to_free_path P filename extension image_format qr_image :
  total (save_to_free_path P filename extension image_format qr_image).
Proof.
  intros w. unfold save_to_free_path, bind.
  pose proof (QRFacts.free_path_spec P filename extension (S (size (files w)))
                (plain_path P filename extension) 1 w) as H.
  destruct (free_path _ P filename extension _ 1 w) as [[path| | |] w']; try done.
  destruct H as [H|H]; [|done].
  rewrite Nat.sub_succ, Nat.sub_0_r in H.
  by apply QRFacts.candidates_not_all_exist in H.
Qed.

Lemma total_save_image P qr_image : total (save_image P qr_image).
Proof.
  unfold save_image. apply total_bind; [total|]. intros filename.
  destruct (re_search_forbidden filename); [apply total_exit|]. cbv zeta.
  apply total_bind; [intros w; apply ask_extension_ends; lia|].
  intros [extension image_format]. apply total_save_to_free_path.
Qed.

(** The loops of [generate_qrcode] are given fuel enough: a run never ends
    for want of it. *)
Lemma generate_qrcode_terminates P : total (generate_qrcode P).
Proof.
  unfold generate_qrcode. apply total_bind; [apply total_build_image|].
  intros qr_image. apply total_save_image.
Qed.

End FlowFacts.

Module ForbiddenFacts.

Lemma contains_elem_of c s : c ∈ s -> contains c s = true.
Proof.
  intros H. unfold contains. apply existsb_exists. exists c.
  split; [by apply list_elem_of_In|]. apply Ascii.eqb_refl.
Qed.

Lemma re_search_forbidden_elem_of c filename :
  c ∈ filename -> c ∈ QRCodeGenerator.FORBIDDEN_CHARS ->
  QRCodeGenerator.re_search_forbidden filename = true.
Proof.
  intros Hc Hf. unfold QRCodeGenerator.re_search_forbidden.
  apply existsb_exists. exists c.
  split; [by apply list_elem_of_In | by apply contains_elem_of].
Qed.

(** A forbidden character in the name typed ends [save_image] at once. *)
Lemma save_image_rejects P qr_image w text rest :
  stdin w = Line text :: rest ->
  QRCodeGenerator.re_search_forbidden (strip text) = true ->
  QRCodeGenerator.save_image P qr_image w = (Exit 1, set_stdin rest w).
Proof.
  intros Hin Hf. unfold QRCodeGenerator.save_image, bind at 1, try_except, bind, input.
  rewrite Hin. cbn [ret]. by rewrite Hf.
Qed.

(** [read_wordlist] of utils.py rejects a wordlist one of whose names holds
    a forbidden character, the backslash among them. *)
Lemma utils_read_wordlist_rejects file_path w data name :
  files w !! file_path = Some (Text data) ->
  name ∈ names_of data ->
  has_forbidden_char name = true ->
  fst (Utils.read_wordlist file_path w) = Exit 1.
Proof.
  intros Hf Hin Hc. unfold Utils.read_wordlist, bind.
  rewrite (WordlistFacts.sort_wordlist_text _ _ _ Hf).
  assert (existsb (fun line => existsb (fun char => contains char Utils.forbidden_chars) line)
                  (names_of data) = true) as ->; [|done].
  apply existsb_exists. exists name. split; [by apply list_elem_of_In | done].
Qed.

End ForbiddenFacts.




(** The class of [FORBIDDEN_CHARS] does not hold the backslash, though the
    message printed on a rejection names it: a name with a backslash is
    accepted and the image is saved under it. *)
Example qr_backslash_is_accepted :
  QRCodeGenerator.re_search_forbidden (lit "a\b") = false /\
  fst (QRCodeGenerator.save_image qr_layout (StandardQR (lit "white") (lit "x"))
         (typing [lit "a\b"; lit "png"])) = Return (lit "QRCodes/a\b.png").
Proof. split; vm_compute; reflexivity. Qed.

(** ** The e-mail sender *)

Module EmailFacts.
Import EmailSender.

Lemma only_logs_refl w : only_logs w w.
Proof. exists []. rewrite app_nil_r. by destruct w. Qed.

Lemma only_logs_add_log e w : only_logs w (add_log e w).
Proof. by exists [e]. Qed.

Lemma only_logs_trans w1 w2 w3 : only_logs w1 w2 -> only_logs w2 w3 -> only_logs w1 w3.
Proof.
  intros [l1 ->] [l2 ->]. exists (l1 ++ l2). cbn. by rewrite app_assoc.
Qed.

Lemma only_logs_smtp w w' : only_logs w w' -> smtp w' (smtp_calls w') = smtp w (smtp_calls w).
Proof. by intros [l ->]. Qed.

Lemma only_logs_log w w' : only_logs w w' -> exists entries, log w' = log w ++ entries.
Proof. intros [l ->]. by exists l. Qed.

Lemma only_logs_outbox w w' : only_logs w w' -> outbox w' = outbox w.
Proof. by intros [l ->]. Qed.

(** An attachment that is missing is logged, and the message goes on
    without it. *)
Lemma add_attachment_missing msg attachment_path w :
  files w !! strip attachment_path = None ->
  add_attachment msg attachment_path w =
  (Return msg, add_log (LogAttachmentNotFound attachment_path) w).
Proof.
  intros H. unfold add_attachment, try_except, bind, read_bytes. by rewrite H.
Qed.

Lemma add_attachment_returns msg attachment_path w :
  exists msg' w', add_attachment msg attachment_path w = (Return msg', w') /\ only_logs w w'.
Proof.
  unfold add_attachment, try_except, bind, read_bytes.
  destruct (files w !! strip attachment_path); cbn.
  - eexists _, _. split; [done|apply only_logs_refl].
  - eexists _, _. split; [done|apply only_logs_add_log].
Qed.

Lemma attach_all_returns C items : forall msg w,
  exists msg' w', attach_all C items msg w = (Return msg', w') /\ only_logs w w'.
Proof.
  induction items as [|item items IH]; intros msg w; cbn [attach_all].
  - eexists _, _. split; [done|apply only_logs_refl].
  - destruct (truthy (strip item)); [|apply IH]. unfold bind.
    destruct (add_attachment_returns msg
                (os_path_join (ATTACHMENTS_DIRECTORY_PATH C) item) w)
      as (msg1 & w1 & -> & H1).
    destruct (IH msg1 w1) as (msg2 & w2 & -> & H2).
    eexists _, _. split; [done|]. by eapply only_logs_trans.
Qed.

(** Building the message only adds to the log; it ends with the message or
    with an exception that does not end the run. *)
Lemma build_message_outcome C recipient_email subject body attached w :
  exists w', only_logs w w' /\
    ((exists msg, build_message C recipient_email subject body attached w = (Return msg, w'))
     \/ (exists e, build_message C recipient_email subject body attached w = (Raise e, w')
                   /\ is_Exception e = true /\ ends_the_run e = false)).
Proof.
  unfold build_message. destruct (called_by_automation C).
  - unfold bind, read_text.
    destruct (files w !! _) as [[data| | | |]|];
      try (exists w; split; [apply only_logs_refl|]; right; eexists; by split).
    destruct attached as [l|file_name].
    + exists w. split; [apply only_logs_refl|]. right. eexists. by split.
    + destruct (add_attachment_returns (Mail recipient_email subject body [])
                  (os_path_join data file_name) w) as (msg & w' & -> & H).
      exists w'. split; [done|]. left. by exists msg.
  - destruct (attach_all_returns C (attachment_items attached)
                (Mail recipient_email subject body []) w) as (msg & w' & -> & H).
    exists w'. split; [done|]. left. by exists msg.
Qed.

(** [send_email] once the message is built, by the reply of the server. *)
Lemma send_email_built C recipient_email name subject body attached w msg w1 :
  build_message C recipient_email subject body attached w = (Return msg, w1) ->
  send_email C recipient_email name subject body attached w =
  match smtp w1 (smtp_calls w1) with
  | Delivered =>
      (Return tt, add_log (LogEmailSent recipient_email) (add_mail msg (next_smtp w1)))
  | Fails e =>
      if ends_the_run e then (Exit 1, next_smtp w1)
      else (Return tt, add_log (LogFailedToSend recipient_email) (next_smtp w1))
  end.
Proof.
  intros H. unfold send_email, try_except at 1, bind at 1. rewrite H.
  unfold bind, try_except, smtp_sendmail.
  destruct (smtp w1 (smtp_calls w1)) as [|e]; [done|]. by destruct e.
Qed.

(** [send_email] when building the message fails. *)
Lemma send_email_not_built C recipient_email name subject body attached w e w1 :
  build_message C recipient_email subject body attached w = (Raise e, w1) ->
  is_Exception e = true -> ends_the_run e = false ->
  send_email C recipient_email name subject body attached w =
  (Return tt, add_log (LogFailedToSend recipient_email) w1).
Proof.
  intros H He Hr. unfold send_email, try_except at 1, bind at 1. rewrite H.
  by destruct e.
Qed.

(** Whatever the server does not answer with an exception that ends the
    run, [send_email] returns, having logged the delivery or the failure. *)
Lemma send_email_returns C recipient_email name subject body attached w :
  reply_ends_the_run (smtp w (smtp_calls w)) = false ->
  exists w' entries,
    send_email C recipient_email name subject body attached w = (Return tt, w') /\
    log w' = log w ++ entries /\ entries <> [].
Proof.
  intros Hreply.
  destruct (build_message_outcome C recipient_email subject body attached w)
    as (w1 & Hlogs & [[msg Hb] | (e & Hb & He & Hr)]).
  - rewrite (send_email_built _ _ _ _ _ _ _ _ _ Hb), (only_logs_smtp _ _ Hlogs).
    destruct (only_logs_log _ _ Hlogs) as [l Hl].
    destruct (smtp w (smtp_calls w)) as [|e]; cbn in Hreply.
    + eexists _, (l ++ [_]). split; [done|]. cbn. rewrite Hl, app_assoc.
      split; [done|]. by destruct l.
    + rewrite Hreply. eexists _, (l ++ [_]). split; [done|]. cbn.
      rewrite Hl, app_assoc. split; [done|]. by destruct l.
  - rewrite (send_email_not_built _ _ _ _ _ _ _ _ _ Hb He Hr).
    destruct (only_logs_log _ _ Hlogs) as [l Hl].
    eexists _, (l ++ [_]). split; [done|]. cbn. rewrite Hl, app_assoc.
    split; [done|]. by destruct l.
Qed.

(** The attachments of a row in a mode the script knows. *)
Lemma row_attachments_outcome C common_attachments r name w :
  valid_mode C ->
  (exists attached, row_attachments C common_attachments r name w = (Return attached, w))
  \/ row_attachments C common_attachments r name w = (Raise NameError, w).
Proof.
  intros Hmode. unfold row_attachments.
  repeat case_bool_decide.
  - destruct (field_truthy _); left; by eexists.
  - destruct common_attachments; [left; by eexists | by right].
  - left; by eexists.
  - left; by eexists.
  - exfalso. unfold valid_mode in Hmode.
    rewrite !elem_of_cons, elem_of_nil in Hmode.
    destruct Hmode as [?|[?|[?|[?|[]]]]]; done.
Qed.

(** Short of an exception that ends the run, the body of the loop returns
    to the loop with a record added to the log. *)
Lemma process_row_returns C body_template common_attachments row_index r w :
  valid_mode C ->
  reply_ends_the_run (smtp w (smtp_calls w)) = false ->
  exists row_index' w' entries,
    process_row C body_template common_attachments row_index r w =
      (Return row_index', w') /\
    log w' = log w ++ entries /\ entries <> [].
Proof.
  intros Hmode Hreply. unfold process_row, try_except.
  destruct (get r Email) as [email|]; [destruct (get r Full_Name) as [full_name|]|].
  - unfold bind at 1.
    destruct (row_attachments_outcome C common_attachments r
                (strip (title full_name)) w Hmode) as [[attached ->] | ->].
    + unfold bind.
      destruct (send_email_returns C (strip (lower email)) (strip (title full_name))
                  (EMAIL_SUBJECT C)
                  (replace_str (lit "{{name}}") (strip (title full_name)) body_template)
                  attached w Hreply) as (w' & entries & -> & Hl & Hne).
      by eexists _, _, entries.
    + cbn. by eexists _, _, [_].
  - cbn. by eexists _, _, [_].
  - cbn. by eexists _, _, [_].
Qed.

End EmailFacts.

Module CheckFacts.
Import EmailSender.

Lemma missing_email_invalid r :
  get r Email = None \/ (exists email, get r Email = Some email /\ strip email = []) ->
  row_is_invalid r = true.
Proof.
  unfold row_is_invalid. intros [-> | (email & -> & ->)].
  - by destruct (get r Full_Name).
  - destruct (get r Full_Name); [|done]. apply orb_true_r.
Qed.

Lemma invalid_rows_found r rows : forall start,
  r ∈ rows -> row_is_invalid r = true ->
  filter (fun indexed : nat * row => row_is_invalid (snd indexed))
         (zip (seq start (length rows)) rows) <> [].
Proof.
  induction rows as [|r' rows IH]; intros start Hin Hr.
  - by apply elem_of_nil in Hin.
  - cbn [length seq zip zip_with]. rewrite filter_cons. cbn [snd].
    apply elem_of_cons in Hin as [<- | Hin].
    + rewrite Hr. by rewrite decide_True.
    + destruct (decide _); [done|]. by apply IH.
Qed.

(** A row without a name or an address makes [check_csv] exit. *)
Lemma check_csv_rejects DictReader csv_file_path attachment_mode additional_column
    w data r :
  files w !! csv_file_path = Some (Text data) ->
  r ∈ snd (DictReader data) ->
  row_is_invalid r = true ->
  check_csv DictReader csv_file_path attachment_mode additional_column w = (Exit 1, w).
Proof.
  intros Hf Hin Hr. unfold check_csv, bind, try_except, read_text. rewrite Hf.
  destruct (DictReader data) as [fieldnames rows]. cbn [snd] in Hin.
  destruct (_ || _); [done|].
  destruct (bool_decide (filter _ _ <> [])); [done|].
  destruct (_ && _); [done|].
  rewrite bool_decide_eq_true_2; [done|].
  by apply (invalid_rows_found r).
Qed.

End CheckFacts.

(** C1, as the code has it.  In a run started by hand the CSV file is
    checked before anything is sent: a data row whose Email is missing or
    empty makes [check_csv] end the run with status 1, with nothing sent,
    logged or written.  In the sending loop itself a row whose Email is
    missing is logged and the loop goes on with the rows that follow. *)
Theorem missing_email_stops_checked_run
    (DictReader : str -> option (list str) * list EmailSender.row)
    (C : EmailSender.config) (w : world) (data : str) (r : EmailSender.row) :
  EmailSender.automation_script C = false ->
  files w !! EmailSender.CSV_FILE_PATH C = Some (Text data) ->
  r ∈ snd (DictReader data) ->
  (EmailSender.get r EmailSender.Email = None \/
   exists email, EmailSender.get r EmailSender.Email = Some email /\ strip email = []) ->
  EmailSender.main_checks_and_send DictReader C w = (Exit 1, w) /\
  forall body_template common_attachments row_index r0 rest w0,
    EmailSender.get r0 EmailSender.Email = None ->
    EmailSender.process_rows C body_template common_attachments row_index (r0 :: rest) w0 =
    EmailSender.process_rows C body_template common_attachments row_index rest
      (add_log (LogRowError row_index ValueError) w0).
Proof.
  intros Hauto Hf Hin Hemail. split.
  - unfold EmailSender.main_checks_and_send. rewrite Hauto. cbn [negb].
    unfold bind at 1 2.
    by rewrite (CheckFacts.check_csv_rejects DictReader _ _ _ w data r Hf Hin
                  (CheckFacts.missing_email_invalid r Hemail)).
  - intros body_template common_attachments row_index r0 rest w0 H0.
    cbn [EmailSender.process_rows]. unfold bind at 1.
    unfold EmailSender.process_row, try_except. by rewrite H0.
Qed.

Lemma missing_email_stops_checked_run_witness :
  let data := lit "Full Name,Email" ++ nl ++ lit "Ann," ++ nl ++
              lit "Bob,bob@x.org" ++ nl in
  let w := email_world data (fun _ => Delivered) in
  EmailSender.main_checks_and_send EmailSender.plain_DictReader
    (email_config EmailSender.NoAttachments) w = (Exit 1, w) /\
  forall body_template common_attachments row_index r0 rest w0,
    EmailSender.get r0 EmailSender.Email = None ->
    EmailSender.process_rows (email_config EmailSender.NoAttachments)
      body_template common_attachments row_index (r0 :: rest) w0 =
    EmailSender.process_rows (email_config EmailSender.NoAttachments)
      body_template common_attachments row_index rest
      (add_log (LogRowError row_index ValueError) w0).
Proof.
  intros data w.
  apply (missing_email_stops_checked_run EmailSender.plain_DictReader
           (email_config EmailSender.NoAttachments) w data
           (EmailSender.plain_row [EmailSender.Full_Name; EmailSender.Email] (lit "Ann,"))).
  - reflexivity.
  - reflexivity.
  - apply (bool_decide_unpack _). vm_compute. exact I.
  - right. exists []. split; reflexivity.
Defined.

(** C1 as stated fails: with an empty Email in the first row the run ends
    at the check, and the row that follows, which is complete, gets no
    mail. *)
Lemma missing_email_counterexample :
  let data := lit "Full Name,Email" ++ nl ++ lit "Ann," ++ nl ++
              lit "Bob,bob@x.org" ++ nl in
  let w := email_world data (fun _ => Delivered) in
  map EmailSender.row_is_invalid (snd (EmailSender.plain_DictReader data)) = [true; false] /\
  EmailSender.main_checks_and_send EmailSender.plain_DictReader
    (email_config EmailSender.NoAttachments) w = (Exit 1, w) /\
  outbox w = [] /\ log w = [].
Proof.
  split; [vm_compute; reflexivity|].
  split; [vm_compute; reflexivity|]. split; reflexivity.
Qed.

Module CommonFacts.
Import EmailSender.

(** A list of attachments whose entries are all blank attaches nothing. *)
Lemma send_email_same_items C recipient_email name subject body l l' w :
  (forall msg w0, attach_all C l msg w0 = attach_all C l' msg w0) ->
  send_email C recipient_email name subject body (AttachmentList l) w =
  send_email C recipient_email name subject body (AttachmentList l') w.
Proof.
  intros H. unfold send_email, try_except at 1 3, bind at 1 3, build_message.
  destruct (called_by_automation C); [done|].
  cbn [attachment_items]. by rewrite H.
Qed.

Lemma common_attachments_first_row C first_row others :
  ATTACHMENT_MODE C = Common ->
  read_common_attachments C (first_row :: others) =
  Some (if field_truthy (get first_row Attachments)
        then split_on ";"%char (default [] (get first_row Attachments))
        else []).
Proof. intros H. unfold read_common_attachments. by rewrite H. Qed.

Lemma row_attachments_common C l r name w :
  ATTACHMENT_MODE C = Common ->
  row_attachments C (Some l) r name w = (Return (AttachmentList l), w).
Proof. intros H. unfold row_attachments. by rewrite H. Qed.

Lemma not_truthy_field field :
  field_truthy field = false -> default [] field = [].
Proof. by destruct field as [[|]|]. Qed.

End CommonFacts.

(** C6.  In mode [Common] one list of attachments serves every row: the
    attachments computed for a row do not depend on the row.  The list is
    the Attachments field of the first data row split at the semicolons;
    when that field is empty or missing the list is empty, which attaches
    what the split of the empty field attaches, namely nothing. *)
Theorem common_mode_uses_first_row
    (C : EmailSender.config) (first_row : EmailSender.row)
    (others : list EmailSender.row) :
  EmailSender.ATTACHMENT_MODE C = EmailSender.Common ->
  exists used,
    (forall r name w,
       EmailSender.row_attachments C
         (EmailSender.read_common_attachments C (first_row :: others)) r name w =
       (Return (EmailSender.AttachmentList used), w)) /\
    (EmailSender.field_truthy (EmailSender.get first_row EmailSender.Attachments) = true ->
     used = split_on ";"%char
              (default [] (EmailSender.get first_row EmailSender.Attachments))) /\
    (forall recipient_email name subject body w,
       EmailSender.send_email C recipient_email name subject body
         (EmailSender.AttachmentList used) w =
       EmailSender.send_email C recipient_email name subject body
         (EmailSender.AttachmentList
            (split_on ";"%char
               (default [] (EmailSender.get first_row EmailSender.Attachments)))) w).
Proof.
  intros Hmode.
  rewrite (CommonFacts.common_attachments_first_row C first_row others Hmode).
  eexists. split; [|split].
  - intros r name w. by apply CommonFacts.row_attachments_common.
  - by intros ->.
  - intros recipient_email name subject body w.
    destruct (EmailSender.field_truthy _) eqn:E; [done|].
    rewrite (CommonFacts.not_truthy_field _ E).
    by apply CommonFacts.send_email_same_items.
Qed.

Lemma common_mode_uses_first_row_witness :
  let first_row := full_row (lit "Ann") (lit "ann@x.org") (lit "a.pdf;b.pdf") in
  let others := [full_row (lit "Bob") (lit "bob@x.org") (lit "c.pdf")] in
  exists used,
    (forall r name w,
       EmailSender.row_attachments (email_config EmailSender.Common)
         (EmailSender.read_common_attachments (email_config EmailSender.Common)
            (first_row :: others)) r name w =
       (Return (EmailSender.AttachmentList used), w)) /\
    (EmailSender.field_truthy (EmailSender.get first_row EmailSender.Attachments) = true ->
     used = split_on ";"%char
              (default [] (EmailSender.get first_row EmailSender.Attachments))) /\
    (forall recipient_email name subject body w,
       EmailSender.send_email (email_config EmailSender.Common)
         recipient_email name subject body (EmailSender.AttachmentList used) w =
       EmailSender.send_email (email_config EmailSender.Common)
         recipient_email name subject body
         (EmailSender.AttachmentList
            (split_on ";"%char
               (default [] (EmailSender.get first_row EmailSender.Attachments)))) w).
Proof.
  intros first_row others.
  apply (common_mode_uses_first_row (email_config EmailSender.Common) first_row others).
  reflexivity.
Defined.



(** ** The checks of utils.py *)

Module ChecksFacts.
Import UtilsChecks.

Lemma count_eqb_0 c s : Nat.eqb (count c s) 0 = true -> count c s = 0.
Proof. apply Nat.eqb_eq. Qed.

Lemma create_missing_keeps body_template_file paths : forall w path c,
  files w !! path = Some c ->
  files (snd (create_missing body_template_file paths w)) !! path = Some c.
Proof.
  induction paths as [|[file|] paths IH]; intros w path c Hc; cbn [create_missing];
    [done| |by apply IH].
  unfold bind at 1, os_path_exists. cbn [fst snd].
  destruct (files w !! file) as [c'|] eqn:E.
  - rewrite bool_decide_eq_true_2 by eauto. unfold bind, ret. by apply IH.
  - rewrite bool_decide_eq_false_2 by (by intros [? ?]).
    assert (file <> path) as Hne by congruence.
    destruct (bool_decide (Some file = body_template_file));
      unfold bind, write_file, modify; apply IH; cbn;
      by rewrite lookup_insert_ne.
Qed.

Lemma create_missing_creates body_template_file paths : forall w file,
  Some file ∈ paths ->
  is_Some (files (snd (create_missing body_template_file paths w)) !! file).
Proof.
  induction paths as [|[file'|] paths IH]; intros w file Hin; cbn [create_missing].
  - by apply elem_of_nil in Hin.
  - apply elem_of_cons in Hin as [[= <-]|Hin].
    + unfold bind at 1, os_path_exists. cbn [fst snd].
      destruct (files w !! file) as [c'|] eqn:E.
      * rewrite bool_decide_eq_true_2 by eauto. unfold bind, ret.
        eexists. by eapply create_missing_keeps.
      * rewrite bool_decide_eq_false_2 by (by intros [? ?]).
        destruct (bool_decide (Some file = body_template_file));
          unfold bind, write_file, modify; eexists;
          eapply create_missing_keeps; cbn; apply lookup_insert_eq.
    + unfold bind at 1, os_path_exists. cbn [fst snd].
      destruct (bool_decide (is_Some (files w !! file'))).
      * unfold bind, ret. by apply IH.
      * destruct (bool_decide (Some file' = body_template_file));
          unfold bind, write_file, modify; by apply IH.
  - apply elem_of_cons in Hin as [?|Hin]; [done|]. by apply IH.
Qed.

Lemma create_missing_returns body_template_file paths : forall w,
  fst (create_missing body_template_file paths w) = Return tt.
Proof.
  induction paths as [|[file|] paths IH]; intros w; cbn [create_missing];
    [done| |by apply IH].
  unfold bind at 1, os_path_exists. cbn [fst snd].
  destruct (bool_decide (is_Some (files w !! file))).
  - unfold bind, ret. apply IH.
  - destruct (bool_decide (Some file = body_template_file));
      unfold bind, write_file, modify; apply IH.
Qed.

(** A template that is missing is created with the default text. *)
Lemma create_missing_default body_template_file rest w :
  files w !! body_template_file = None ->
  files (snd (create_missing (Some body_template_file)
                (Some body_template_file :: rest) w)) !! body_template_file =
  Some (Text default_html_code).
Proof.
  intros H. cbn [create_missing]. unfold bind at 1, os_path_exists. cbn [fst snd].
  rewrite H, bool_decide_eq_false_2 by (by intros [? ?]).
  rewrite bool_decide_eq_true_2 by done.
  unfold bind, write_file, modify. apply create_missing_keeps. cbn.
  apply lookup_insert_eq.
Qed.

Lemma check_body_template_default body_template_path w :
  files w !! body_template_path = Some (Text default_html_code) ->
  check_body_template body_template_path w = (Exit 1, w).
Proof.
  intros H. unfold check_body_template, bind at 1, try_except, bind, read_text.
  rewrite H. cbn [ret]. vm_compute. reflexivity.
Qed.

End ChecksFacts.

(** [initialize_necessary_files] creates what is missing and nothing else:
    it returns, every file that existed keeps its content, and every path
    it is given exists afterwards. *)
Theorem initialize_necessary_files_creates_only
    (body_template_file log_file gmail_app_password_file : option str) (w : world) :
  let r := UtilsChecks.initialize_necessary_files
             body_template_file log_file gmail_app_password_file w in
  fst r = Return tt /\
  (forall path c, files w !! path = Some c -> files (snd r) !! path = Some c) /\
  (forall file,
     Some file ∈ [body_template_file; log_file; gmail_app_password_file] ->
     is_Some (files (snd r) !! file)).
Proof.
  unfold UtilsChecks.initialize_necessary_files. split; [|split].
  - apply ChecksFacts.create_missing_returns.
  - intros path c. apply ChecksFacts.create_missing_keeps.
  - intros file. apply ChecksFacts.create_missing_creates.
Qed.

(** On a first run, when there is no body template yet,
    [initialize_necessary_files] writes the default template, which is one
    HTML comment; [check_body_template] rejects it and the run ends with
    status 1, the template left for the user to edit. *)
Theorem default_template_is_rejected
    (body_template_file : str) (log_file gmail_app_password_file : option str)
    (w : world) :
  files w !! body_template_file = None ->
  let w1 := snd (UtilsChecks.initialize_necessary_files (Some body_template_file)
                   log_file gmail_app_password_file w) in
  files w1 !! body_template_file = Some (Text UtilsChecks.default_html_code) /\
  UtilsChecks.check_body_template body_template_file w1 = (Exit 1, w1).
Proof.
  intros H w1.
  assert (files w1 !! body_template_file = Some (Text UtilsChecks.default_html_code))
    as Hd by (by apply ChecksFacts.create_missing_default).
  split; [done|]. by apply ChecksFacts.check_body_template_default.
Qed.

Lemma default_template_is_rejected_witness :
  let w := typing [] in
  let w1 := snd (UtilsChecks.initialize_necessary_files
                   (Some (lit "Email_Sender/body_template.html")) None
                   (Some (lit "Email_Sender/gmail_app_password.txt")) w) in
  files w1 !! lit "Email_Sender/body_template.html" =
    Some (Text UtilsChecks.default_html_code) /\
  UtilsChecks.check_body_template (lit "Email_Sender/body_template.html") w1 =
    (Exit 1, w1).
Proof.
  intros w.
  apply (default_template_is_rejected (lit "Email_Sender/body_template.html") None
           (Some (lit "Email_Sender/gmail_app_password.txt")) w).
  reflexivity.
Defined.

(** [check_gmail_app_password] returns a password only when the file holds
    exactly one line that is not blank; the password is that line stripped,
    it is not empty and holds no space.  In every other case, an unreadable
    file among them, the run ends with status 1.  Nothing is changed. *)
Theorem check_gmail_app_password_sound (gmail_app_password_file : str) (w : world) :
  (exists password data,
     UtilsChecks.check_gmail_app_password gmail_app_password_file w =
       (Return password, w) /\
     files w !! gmail_app_password_file = Some (Text data) /\
     data_rows_of (readlines data) = [password] /\
     password <> [] /\ strip password = password /\
     count " "%char password = 0)
  \/ UtilsChecks.check_gmail_app_password gmail_app_password_file w = (Exit 1, w).
Proof.
  unfold UtilsChecks.check_gmail_app_password, try_except, bind, read_text.
  destruct (files w !! gmail_app_password_file) as [[data| | | |]|] eqn:E;
    try (by right).
  fold (data_rows_of (readlines data)).
  pose proof (CsvFacts.data_rows_not_blank (readlines data)) as Hnb.
  destruct (data_rows_of (readlines data)) as [|p [|q l]] eqn:Hd; try (by right).
  destruct (Nat.eqb (count " "%char p) 0) eqn:Hc; [|by right].
  left. exists p, data. cbn. repeat split; try done.
  - by inversion Hnb.
  - assert (p ∈ data_rows_of (readlines data)) as Hin by (rewrite Hd; left).
    unfold data_rows_of in Hin.
    apply list_elem_of_In, in_map_iff in Hin as (l & <- & _).
    apply PyFacts.strip_idem.
  - by apply ChecksFacts.count_eqb_0.
Qed.

Module CheckCsvFacts.
Import EmailSender.

Lemma row_is_invalid_false r : row_is_invalid r = false <-> complete_row r.
Proof.
  unfold row_is_invalid, complete_row. split.
  - destruct (get r Full_Name) as [full_name|]; [|done].
    destruct (get r Email) as [email|]; [|done].
    intros H. apply orb_false_iff in H as [H1 H2].
    apply bool_decide_eq_false in H1, H2. by exists full_name, email.
  - intros (full_name & email & -> & -> & H1 & H2).
    by rewrite !bool_decide_eq_false_2.
Qed.

Lemma no_invalid_rows rows : forall start,
  filter (fun indexed : nat * row => row_is_invalid (snd indexed))
         (zip (seq start (length rows)) rows) = [] <->
  Forall complete_row rows.
Proof.
  induction rows as [|r rows IH]; intros start; [done|].
  cbn [length seq zip zip_with]. rewrite filter_cons. cbn [snd].
  rewrite Forall_cons, <- row_is_invalid_false, <- (IH (S start)).
  destruct (row_is_invalid r); cbn.
  - rewrite decide_True by done. split; [done|]. by intros [? _].
  - rewrite decide_False by (by intros []). by split; [|intros [_ ?]].
Qed.

Lemma required_columns_spec attachment_mode additional_column fieldnames :
  filter (fun column => bool_decide (column ∉ fieldnames))
         ([Full_Name; Email] ++ match additional_column with
                                | Some column => if truthy column then [column] else []
                                | None => []
                                end) = [] /\
  bool_decide (attachment_mode ∈ [Respective; Common])
  && bool_decide (Attachments ∉ fieldnames) = false <->
  required_columns_present attachment_mode additional_column fieldnames.
Proof.
  unfold required_columns_present.
  rewrite andb_false_iff, !bool_decide_eq_false.
  assert (forall l : list str,
             filter (fun column => bool_decide (column ∉ fieldnames)) l = [] <->
             Forall (fun column => column ∈ fieldnames) l) as Hf.
  { induction l as [|c l IH]; [done|]. rewrite filter_cons, Forall_cons, <- IH.
    destruct (decide (c ∈ fieldnames)) as [Hc|Hc].
    - rewrite bool_decide_eq_false_2 by (by intros ?).
      rewrite decide_False by (by intros []). by split; [|intros [_ ?]].
    - rewrite bool_decide_eq_true_2 by done. rewrite decide_True by done.
      split; [done|]. by intros [? _]. }
  rewrite Hf, Forall_app, !Forall_cons. split.
  - intros [[(H1 & H2 & _) Hadd] Hmode]. repeat split; try done.
    + intros column -> Hne. destruct column; [done|]. by inversion Hadd.
    + intros Hin. destruct Hmode as [?|Hmode]; [done|].
      by destruct (decide (Attachments ∈ fieldnames)); [|destruct Hmode].
  - intros (H1 & H2 & Hadd & Hmode). repeat split; try done.
    + destruct additional_column as [[|c column]|]; try done.
      constructor; [|done]. by apply Hadd.
    + destruct (decide (attachment_mode ∈ [Respective; Common])); [|by left].
      right. intros Hn. by apply Hn, Hmode.
Qed.

End CheckCsvFacts.

(** [check_csv] changes nothing and ends in one of two ways.  It returns
    exactly when the reader finds at least one row and a header, the header
    names the columns Full Name and Email, the additional column if one is
    asked for, and Attachments in the modes [Respective] and [Common], and
    every row has a name and an address that are not blank.  Otherwise the
    run ends with status 1. *)
Theorem check_csv_accepts_iff
    (DictReader : str -> option (list str) * list EmailSender.row)
    (csv_file_path attachment_mode : str) (additional_column : option str)
    (w : world) (data : str) :
  files w !! csv_file_path = Some (Text data) ->
  (EmailSender.check_csv DictReader csv_file_path attachment_mode
     additional_column w = (Return tt, w) \/
   EmailSender.check_csv DictReader csv_file_path attachment_mode
     additional_column w = (Exit 1, w)) /\
  (EmailSender.check_csv DictReader csv_file_path attachment_mode
     additional_column w = (Return tt, w) <->
   snd (DictReader data) <> [] /\
   exists fieldnames,
     fst (DictReader data) = Some fieldnames /\
     required_columns_present attachment_mode additional_column fieldnames /\
     Forall complete_row (snd (DictReader data))).
Proof.
  intros Hf. unfold EmailSender.check_csv, bind, try_except, read_text.
  rewrite Hf. destruct (DictReader data) as [fieldnames rows]. cbn [fst snd].
  destruct (decide (rows = [])) as [->|Hrows].
  { cbn. split; [by right|]. split; [done|]. by intros [? _]. }
  rewrite (bool_decide_eq_false_2 (rows = [])) by done.
  destruct fieldnames as [fieldnames|].
  2: { cbn. split; [by right|]. split; [done|]. by intros (_ & ? & ? & _). }
  rewrite (bool_decide_eq_false_2 (Some fieldnames = None)) by done.
  cbn [orb default].
  pose proof (CheckCsvFacts.required_columns_spec attachment_mode additional_column
                fieldnames) as Hcols.
  pose proof (CheckCsvFacts.no_invalid_rows rows 2) as Hrowsok.
  match goal with
  | |- context [bool_decide (?l <> [])] => destruct (decide (l = [])) as [Hc|Hc]
  end.
  2: { rewrite bool_decide_eq_true_2 by done. split; [by right|].
       split; [done|]. intros (_ & ? & [= <-] & Hp & _).
       apply Hcols in Hp as [? _]. done. }
  rewrite (bool_decide_eq_false_2 (_ <> [])) by (by intros ?).
  destruct (bool_decide (attachment_mode ∈ _) && _) eqn:Hm.
  { split; [by right|]. split; [done|]. intros (_ & ? & [= <-] & Hp & _).
    apply Hcols in Hp as [_ ?]. congruence. }
  match goal with
  | |- context [bool_decide (?l <> [])] => destruct (decide (l = [])) as [Hr|Hr]
  end.
  - rewrite (bool_decide_eq_false_2 (_ <> [])) by (by intros ?).
    split; [by left|]. split; [|done]. intros _. split; [done|].
    exists fieldnames. split; [done|]. split; [by apply Hcols | by apply Hrowsok].
  - rewrite bool_decide_eq_true_2 by done. split; [by right|].
    split; [done|]. intros (_ & ? & _ & _ & Hv). by apply Hrowsok in Hv.
Qed.

Lemma check_csv_accepts_iff_witness :
  let data := lit "Full Name,Email" ++ nl ++ lit "Ann,ann@x.org" ++ nl in
  let w := email_world data (fun _ => Delivered) in
  (EmailSender.check_csv EmailSender.plain_DictReader
     (lit "Email_Sender/Spreadsheet/list.csv") EmailSender.NoAttachments None w =
     (Return tt, w) \/
   EmailSender.check_csv EmailSender.plain_DictReader
     (lit "Email_Sender/Spreadsheet/list.csv") EmailSender.NoAttachments None w =
     (Exit 1, w)) /\
  (EmailSender.check_csv EmailSender.plain_DictReader
     (lit "Email_Sender/Spreadsheet/list.csv") EmailSender.NoAttachments None w =
     (Return tt, w) <->
   snd (EmailSender.plain_DictReader data) <> [] /\
   exists fieldnames,
     fst (EmailSender.plain_DictReader data) = Some fieldnames /\
     required_columns_present EmailSender.NoAttachments None fieldnames /\
     Forall complete_row (snd (EmailSender.plain_DictReader data))).
Proof.
  intros data w.
  apply (check_csv_accepts_iff EmailSender.plain_DictReader
           (lit "Email_Sender/Spreadsheet/list.csv") EmailSender.NoAttachments None
           w data).
  reflexivity.
Defined.

Module CheckAttachmentsFacts.
Import EmailSender.

Lemma exists_in_spec w directory attachment :
  exists_in w directory attachment = true <->
  is_Some (files w !! os_path_join directory attachment).
Proof. unfold exists_in. apply bool_decide_eq_true. Qed.

(** The files of a row that are missing, as the loop computes them. *)
Lemma missing_files_spec w directory r :
  field_truthy (get r Attachments) = true ->
  filter (fun path => truthy path && negb (exists_in w directory path))
         (map strip (split_on ";"%char (default [] (get r Attachments)))) = [] <->
  Forall (fun path => is_Some (files w !! os_path_join directory path)) (row_paths r).
Proof.
  intros Hf. unfold row_paths. rewrite Hf.
  induction (map strip (split_on ";"%char (default [] (get r Attachments))))
    as [|p l IH]; [done|].
  rewrite !filter_cons. destruct (truthy p); cbn [andb].
  - rewrite (decide_True (P := Is_true true)) by done.
    rewrite Forall_cons, <- IH, <- exists_in_spec.
    destruct (exists_in w directory p); cbn.
    + rewrite decide_False by (by intros []). by split; [|intros [_ ?]].
    + rewrite decide_True by done. split; [done|]. by intros [? _].
  - rewrite !decide_False by (by intros []). done.
Qed.

Lemma row_paths_no_field r :
  field_truthy (get r Attachments) = false -> row_paths r = [].
Proof. intros H. unfold row_paths. by rewrite H. Qed.

(** The list kept from one row to the next never hides a missing file: the
    flag is raised exactly when some row names a file that is missing. *)
Lemma check_respective_spec w directory rows : forall missing_files is_missing,
  (missing_files <> [] -> is_missing = true) ->
  check_respective w directory rows missing_files is_missing = false <->
  is_missing = false /\
  Forall (fun r => Forall (fun path => is_Some (files w !! os_path_join directory path))
                          (row_paths r)) rows.
Proof.
  induction rows as [|r rows IH]; intros missing_files is_missing Hinv;
    cbn [check_respective].
  - split; [by intros ->|by intros [-> _]].
  - destruct (field_truthy (get r Attachments)) eqn:Hf.
    + rewrite IH by (intros H; rewrite bool_decide_eq_true_2 by done;
                     apply orb_true_r).
      rewrite Forall_cons, <- (missing_files_spec w directory r Hf).
      rewrite orb_false_iff, bool_decide_eq_false. split.
      * intros [[-> Hm] Hrest]. split; [done|]. split; [|done].
        match type of Hm with
        | ~ (?l <> []) => destruct l; [done | by destruct Hm]
        end.
      * intros (-> & Hm & Hrest). split; [|done]. split; [done|].
        intros Hn. by apply Hn.
    + rewrite IH.
      * rewrite Forall_cons, (row_paths_no_field r Hf), orb_false_iff,
          bool_decide_eq_false. split.
        -- intros [[-> _] Hrest]. by repeat split.
        -- intros (-> & _ & Hrest). split; [|done]. split; [done|].
           intros Hn. by specialize (Hinv Hn).
      * intros Hn. rewrite (Hinv Hn). done.
Qed.

Lemma check_common_spec w directory common_attachments :
  check_common w directory common_attachments = false <->
  Forall (fun attachment =>
            strip attachment <> [] /\
            is_Some (files w !! os_path_join directory attachment))
         common_attachments.
Proof.
  unfold check_common. induction common_attachments as [|a l IH]; [done|].
  cbn [existsb]. rewrite orb_false_iff, IH, Forall_cons, !orb_false_iff.
  rewrite !negb_false_iff, exists_in_spec, bool_decide_eq_false.
  split.
  - by intros [[[_ ?] ?] ?].
  - intros [[Hs He] Hl]. repeat split; try done. by destruct a.
Qed.

End CheckAttachmentsFacts.

(** In mode [Respective], [check_attachments] lets the run go on exactly
    when every file named by a row exists in the directory of the
    attachments, the names being the entries of the Attachments field,
    stripped, that are not empty.  Otherwise the run ends with status 1.
    Nothing is changed. *)
Theorem check_attachments_respective
    (DictReader : str -> option (list str) * list EmailSender.row)
    (csv_file_path directory : str) (automation_dir_path : option str)
    (w : world) (data : str) :
  files w !! csv_file_path = Some (Text data) ->
  (EmailSender.check_attachments DictReader csv_file_path (Some directory)
     EmailSender.Respective automation_dir_path w = (Return tt, w) \/
   EmailSender.check_attachments DictReader csv_file_path (Some directory)
     EmailSender.Respective automation_dir_path w = (Exit 1, w)) /\
  (EmailSender.check_attachments DictReader csv_file_path (Some directory)
     EmailSender.Respective automation_dir_path w = (Return tt, w) <->
   Forall (fun r =>
             Forall (fun path => is_Some (files w !! os_path_join directory path))
                    (row_paths r))
          (snd (DictReader data))).
Proof.
  intros Hf.
  assert (EmailSender.check_attachments DictReader csv_file_path (Some directory)
            EmailSender.Respective automation_dir_path w =
          if EmailSender.check_respective w directory (snd (DictReader data)) [] false
          then (Exit 1, w) else (Return tt, w)) as ->.
  { unfold EmailSender.check_attachments, bind, read_text. rewrite Hf.
    change (bool_decide (EmailSender.Respective = EmailSender.Common)) with false.
    change (bool_decide (EmailSender.Respective = EmailSender.Respective)) with true.
    cbv beta iota.
    by destruct (EmailSender.check_respective w directory (snd (DictReader data)) [] false). }
  pose proof (CheckAttachmentsFacts.check_respective_spec w directory
                (snd (DictReader data)) [] false (fun H => False_ind _ (H eq_refl)))
    as Hspec.
  destruct (EmailSender.check_respective w directory (snd (DictReader data)) [] false).
  - split; [by right|]. split; [done|]. intros H.
    assert (true = false) by (apply Hspec; by split). done.
  - split; [by left|]. split; [|done]. intros _. by apply Hspec.
Qed.

Lemma check_attachments_respective_witness :
  let data := lit "Full Name,Email,Attachments" ++ nl ++
              lit "Ann,ann@x.org, a.pdf ;" ++ nl ++ lit "Bob,bob@x.org," ++ nl in
  let w := set_files (insert (lit "Email_Sender/Attachments/a.pdf") (Binary (lit "%PDF")))
             (email_world data (fun _ => Delivered)) in
  EmailSender.check_attachments EmailSender.plain_DictReader
    (lit "Email_Sender/Spreadsheet/list.csv") (Some (lit "Email_Sender/Attachments"))
    EmailSender.Respective None w = (Return tt, w).
Proof.
  intros data w.
  apply (proj2 (check_attachments_respective EmailSender.plain_DictReader
                  (lit "Email_Sender/Spreadsheet/list.csv")
                  (lit "Email_Sender/Attachments") None w data eq_refl)).
  apply (bool_decide_unpack _). vm_compute. exact I.
Defined.

(** In mode [Common] only the first data row is looked at.  With a first
    row that has the column Attachments, [check_attachments] lets the run go
    on exactly when the field is not empty and every entry of its split at
    the semicolons is not blank and exists, as it stands, in the directory
    of the attachments.  Otherwise the run ends with status 1. *)
Theorem check_attachments_common
    (DictReader : str -> option (list str) * list EmailSender.row)
    (csv_file_path directory : str) (automation_dir_path : option str)
    (w : world) (data : str) (first_row : EmailSender.row)
    (others : list EmailSender.row) (field : option str) :
  files w !! csv_file_path = Some (Text data) ->
  snd (DictReader data) = first_row :: others ->
  first_row !! EmailSender.Attachments = Some field ->
  (EmailSender.check_attachments DictReader csv_file_path (Some directory)
     EmailSender.Common automation_dir_path w = (Return tt, w) \/
   EmailSender.check_attachments DictReader csv_file_path (Some directory)
     EmailSender.Common automation_dir_path w = (Exit 1, w)) /\
  (EmailSender.check_attachments DictReader csv_file_path (Some directory)
     EmailSender.Common automation_dir_path w = (Return tt, w) <->
   exists listed,
     field = Some listed /\ listed <> [] /\
     Forall (fun attachment =>
               strip attachment <> [] /\
               is_Some (files w !! os_path_join directory attachment))
            (split_on ";"%char listed)).
Proof.
  intros Hf Hrows Hfield.
  assert (EmailSender.check_attachments DictReader csv_file_path (Some directory)
            EmailSender.Common automation_dir_path w =
          if EmailSender.field_truthy field
          then if EmailSender.check_common w directory
                    (split_on ";"%char (default [] field))
               then (Exit 1, w) else (Return tt, w)
          else (Exit 1, w)) as ->.
  { unfold EmailSender.check_attachments, bind, read_text. rewrite Hf, Hrows, Hfield.
    change (bool_decide (EmailSender.Common = EmailSender.Common)) with true.
    cbv beta iota. destruct (EmailSender.field_truthy field); [|done].
    cbv beta.
    by destruct (EmailSender.check_common w directory
                   (split_on ";"%char (default [] field))). }
  destruct field as [[|c listed]|]; cbn [EmailSender.field_truthy truthy].
  - split; [by right|]. split; [done|]. by intros (? & [= <-] & ? & _).
  - change (default [] (Some (c :: listed))) with (c :: listed).
    pose proof (CheckAttachmentsFacts.check_common_spec w directory
                  (split_on ";"%char (c :: listed))) as Hspec.
    destruct (EmailSender.check_common w directory (split_on ";"%char (c :: listed))).
    + split; [by right|]. split; [done|]. intros (? & [= <-] & _ & H).
      assert (true = false) by (by apply Hspec). done.
    + split; [by left|]. split; [|done]. intros _. eexists. split; [done|].
      split; [done|]. by apply Hspec.
  - split; [by right|]. split; [done|]. by intros (? & ? & _).
Qed.

Lemma check_attachments_common_witness :
  let data := lit "Full Name,Email,Attachments" ++ nl ++
              lit "Ann,ann@x.org,a.pdf" ++ nl ++ lit "Bob,bob@x.org,none.pdf" ++ nl in
  let w := set_files (insert (lit "Email_Sender/Attachments/a.pdf") (Binary (lit "%PDF")))
             (email_world data (fun _ => Delivered)) in
  EmailSender.check_attachments EmailSender.plain_DictReader
    (lit "Email_Sender/Spreadsheet/list.csv") (Some (lit "Email_Sender/Attachments"))
    EmailSender.Common None w = (Return tt, w).
Proof.
  intros data w.
  refine (proj2 (proj2 (check_attachments_common EmailSender.plain_DictReader
                   (lit "Email_Sender/Spreadsheet/list.csv")
                   (lit "Email_Sender/Attachments") None w data
                   (full_row (lit "Ann") (lit "ann@x.org") (lit "a.pdf"))
                   [full_row (lit "Bob") (lit "bob@x.org") (lit "none.pdf")]
                   (Some (lit "a.pdf")) eq_refl _ _)) _).
  - vm_compute. reflexivity.
  - vm_compute. reflexivity.
  - exists (lit "a.pdf"). split; [done|]. split; [done|].
    apply (bool_decide_unpack _). vm_compute. exact I.
Defined.

Module SortCsvMore.
Import PyFacts LineFacts CsvFacts.

(** A text whose pieces are free of newlines is read back piece by piece,
    provided the last piece is not empty. *)
Lemma readlines_join_header x L :
  no_newline x -> L <> [] ->
  Forall (fun y => no_newline y /\ y <> []) L ->
  readlines (join nl (x :: L)) = lines_of (x :: L).
Proof.
  intros Hx Hne HL. destruct L as [|y L]; [done|].
  change (join nl (x :: y :: L)) with (x ++ newline :: join nl (y :: L)).
  rewrite readlines_line by done. by rewrite readlines_join.
Qed.

Lemma strip_line_no_newline l : is_line l -> no_newline (strip l).
Proof.
  intros (body & Hb & [-> | ->]).
  - rewrite strip_snoc_newline. by apply strip_Forall.
  - by apply strip_Forall.
Qed.

(** A row as [sort_csv] writes it. *)
Lemma data_rows_written rows :
  Forall is_line rows ->
  Forall (fun r => no_newline r /\ r <> [] /\ strip r = r) (data_rows_of rows).
Proof.
  intros Hl. unfold data_rows_of. apply Forall_forall. intros r Hr.
  apply list_elem_of_In, in_map_iff in Hr as (l & <- & Hin).
  apply list_elem_of_In, list_elem_of_filter in Hin as [Hnb Hin].
  rewrite Forall_forall in Hl. split; [by apply strip_line_no_newline, Hl|].
  split; [by destruct (strip l) | apply strip_idem].
Qed.

Lemma data_rows_of_lines_of L :
  Forall (fun r => no_newline r /\ r <> [] /\ strip r = r) L ->
  data_rows_of (lines_of L) = L.
Proof.
  unfold data_rows_of. induction 1 as [|x L (Hx & Hne & Hs) HL IH]; [done|].
  assert (truthy (strip x) = true) as Ht by (rewrite Hs; by destruct x).
  destruct L as [|y L].
  - cbn [lines_of]. rewrite filter_cons, decide_True by (by rewrite Ht).
    simpl. by rewrite Hs.
  - change (lines_of (x :: y :: L)) with ((x ++ nl) :: lines_of (y :: L)).
    rewrite filter_cons, decide_True by (by rewrite strip_snoc_newline, Ht).
    rewrite map_cons, strip_snoc_newline, Hs. by rewrite IH.
Qed.

(** Reading back what [sort_csv] wrote. *)
Lemma readlines_written header sorted_data :
  no_newline header -> sorted_data <> [] ->
  Forall (fun r => no_newline r /\ r <> [] /\ strip r = r) sorted_data ->
  exists first rows,
    readlines (join nl (header :: sorted_data)) = first :: rows /\
    strip first = strip header /\ data_rows_of rows = sorted_data.
Proof.
  intros Hh Hne HF.
  rewrite readlines_join_header; try done.
  2: { eapply Forall_impl; [exact HF|]. by intros ? (? & ? & _). }
  destruct sorted_data as [|r l]; [done|].
  exists (header ++ nl), (lines_of (r :: l)). split; [done|].
  split; [apply strip_snoc_newline | by apply data_rows_of_lines_of].
Qed.

(** The outcome of [sort_csv], case by case. *)
Lemma sort_csv_cases file_path w :
  Utils.sort_csv file_path w = (Exit 1, w) \/
  Utils.sort_csv file_path w = (Raise IndexError, w) \/
  exists data first rows sorted_data,
    files w !! file_path = Some (Text data) /\
    readlines data = first :: rows /\
    Permutation (data_rows_of rows) sorted_data /\
    Utils.sort_csv file_path w =
      (Return tt,
       set_files (insert file_path (Text (join nl (strip first :: sorted_data)))) w).
Proof.
  destruct (files w !! file_path) as [c|] eqn:Hf.
  2: { left. unfold Utils.sort_csv, bind, try_except, read_text. by rewrite Hf. }
  destruct c as [data| | | |];
    try (left; unfold Utils.sort_csv, bind, try_except, read_text; by rewrite Hf).
  destruct (readlines data) as [|first rows] eqn:Hl.
  { left. unfold Utils.sort_csv, bind, try_except, read_text.
    by rewrite Hf, Hl. }
  destruct (data_rows_of rows) as [|first_row others] eqn:Hd.
  { left. unfold Utils.sort_csv, bind at 1, try_except, bind, read_text.
    rewrite Hf, Hl. cbn [ret]. fold (data_rows_of rows). by rewrite Hd. }
  rewrite (sort_csv_run _ _ _ _ _ _ _ Hf Hl Hd).
  destruct (Nat.eqb (count ","%char first_row) 1).
  - right. right. exists data, first, rows, (sorted (data_rows_of rows)).
    repeat split; try done. apply sorted_Permutation.
  - unfold Utils.sorted_by_second_field.
    destruct (mapM Utils.second_field (data_rows_of rows)) as [keys|] eqn:Hk.
    + right. right. exists data, first, rows, (map snd (sorted_by fst (zip keys (data_rows_of rows)))).
      repeat split; try done.
      apply mapM_Some in Hk.
      rewrite <- (sorted_by_Permutation fst).
      clear -Hk. induction Hk as [|r k rs ks _ _ IH]; [done|].
      cbn. by constructor.
    + right. by left.
Qed.

End SortCsvMore.

(** [sort_csv] either rewrites the file or leaves the whole world as it
    found it: when it does not return, because the file cannot be read, has
    no first line or no data row, or because a row has no second field, the
    outcome is exit status 1 or [IndexError] and nothing was written. *)
Theorem sort_csv_fails_without_writing (file_path : str) (w : world) :
  (exists w', Utils.sort_csv file_path w = (Return tt, w')) \/
  Utils.sort_csv file_path w = (Exit 1, w) \/
  Utils.sort_csv file_path w = (Raise IndexError, w).
Proof.
  destruct (SortCsvMore.sort_csv_cases file_path w)
    as [H | [H | (data & first & rows & sorted_data & _ & _ & _ & H)]]; eauto.
Qed.

(** A data row without a comma makes [sort_csv] raise [IndexError], unless
    the first data row has exactly one comma: the key of the sort is the
    second field of every row.  The file is left as it was. *)
Theorem sort_csv_raises_without_second_field
    (file_path : str) (w : world) (data first : str) (rows : list str)
    (first_row : str) (others : list str) :
  files w !! file_path = Some (Text data) ->
  readlines data = first :: rows ->
  data_rows_of rows = first_row :: others ->
  count ","%char first_row <> 1 ->
  Exists (fun row => count ","%char row = 0) (first_row :: others) ->
  Utils.sort_csv file_path w = (Raise IndexError, w).
Proof.
  intros Hf Hl Hd Hc Hex.
  rewrite (CsvFacts.sort_csv_run _ _ _ _ _ _ _ Hf Hl Hd).
  apply Nat.eqb_neq in Hc. rewrite Hc, Hd.
  by rewrite CsvFacts.sorted_by_second_field_raises.
Qed.

Lemma sort_csv_raises_without_second_field_witness :
  let data := lit "Name" ++ nl ++ lit "Zoe" ++ nl ++ lit "Adam" ++ nl in
  Utils.sort_csv (lit "list.csv") (csv_world (lit "list.csv") data) =
    (Raise IndexError, csv_world (lit "list.csv") data).
Proof.
  intros data.
  apply (sort_csv_raises_without_second_field (lit "list.csv") _ data
           (lit "Name" ++ nl) [lit "Zoe" ++ nl; lit "Adam" ++ nl]
           (lit "Zoe") [lit "Adam"]).
  - reflexivity.
  - reflexivity.
  - reflexivity.
  - vm_compute. lia.
  - left. reflexivity.
Defined.

(** Sorting twice is sorting once when the data rows agree on their shape:
    all with exactly one comma, or all with at least two.  The second run
    returns and leaves the file as the first run wrote it. *)
Theorem sort_csv_idempotent_on_uniform_rows
    (file_path : str) (w : world) (data first : str) (rows : list str) :
  files w !! file_path = Some (Text data) ->
  readlines data = first :: rows ->
  data_rows_of rows <> [] ->
  Forall (fun row => count ","%char row = 1) (data_rows_of rows) \/
  Forall (fun row => 2 <= count ","%char row) (data_rows_of rows) ->
  exists w1,
    Utils.sort_csv file_path w = (Return tt, w1) /\
    Utils.sort_csv file_path w1 = (Return tt, w1).
Proof.
  intros Hf Hl Hne Hshape.
  destruct (data_rows_of rows) as [|first_row others] eqn:Hd; [done|].
  assert (Hlines : Forall is_line (first :: rows))
    by (rewrite <- Hl; apply LineFacts.readlines_lines).
  apply Forall_cons in Hlines as [Hfirst Hrows].
  pose proof (SortCsvMore.data_rows_written rows Hrows) as Hw. rewrite Hd in Hw.
  pose proof (SortCsvMore.strip_line_no_newline first Hfirst) as Hh.
  assert (forall sorted_data,
             Permutation (first_row :: others) sorted_data ->
             exists first' rows',
               readlines (join nl (strip first :: sorted_data)) = first' :: rows' /\
               strip first' = strip first /\ data_rows_of rows' = sorted_data) as Hback.
  { intros sorted_data Hp.
    destruct (SortCsvMore.readlines_written (strip first) sorted_data Hh)
      as (first' & rows' & H1 & H2 & H3).
    - intros ->. by apply Permutation_nil_r in Hp.
    - by rewrite <- Hp.
    - exists first', rows'. by rewrite H1, H2, PyFacts.strip_idem. }
  rewrite (CsvFacts.sort_csv_run _ _ _ _ _ _ _ Hf Hl Hd), Hd.
  destruct Hshape as [Hone | Htwo].
  - assert (Nat.eqb (count ","%char first_row) 1 = true) as ->
      by (apply Nat.eqb_eq; by inversion Hone).
    cbn [ret]. eexists. split; [done|].
    destruct (Hback (sorted (first_row :: others)) (PyFacts.sorted_Permutation _))
      as (first' & rows' & H1 & H2 & H3).
    destruct (sorted (first_row :: others)) as [|r l] eqn:Hs.
    { pose proof (PyFacts.sorted_Permutation (first_row :: others)) as Hp.
      rewrite Hs in Hp. by apply Permutation_nil_r in Hp. }
    rewrite (CsvFacts.sort_csv_run file_path _ _ first' rows' r l
               (lookup_insert_eq _ _ _) H1 H3).
    assert (Nat.eqb (count ","%char r) 1 = true) as ->.
    { apply Nat.eqb_eq.
      assert (Forall (fun row => count ","%char row = 1) (r :: l)) as Hr
        by (rewrite <- Hs, <- PyFacts.sorted_Permutation; done).
      by inversion Hr. }
    cbn [ret]. rewrite H2, H3, <- Hs, PyFacts.sorted_fixed by apply PyFacts.sorted_Sorted.
    by rewrite WordlistFacts.set_files_insert_twice.
  - assert (Nat.eqb (count ","%char first_row) 1 = false) as ->.
    { apply Nat.eqb_neq. apply Forall_cons in Htwo as [? _]. lia. }
    assert (Forall has_comma (first_row :: others)) as Hcomma.
    { eapply Forall_impl; [exact Htwo|]. unfold has_comma. intros; lia. }
    rewrite CsvFacts.sorted_by_second_field_ok by done.
    eexists. split; [done|].
    pose proof (PyFacts.sorted_by_Permutation second_key (first_row :: others)) as Hp.
    destruct (Hback _ Hp) as (first' & rows' & H1 & H2 & H3).
    destruct (sorted_by second_key (first_row :: others)) as [|r l] eqn:Hs.
    { by apply Permutation_nil_r in Hp. }
    rewrite (CsvFacts.sort_csv_run file_path _ _ first' rows' r l
               (lookup_insert_eq _ _ _) H1 H3).
    assert (Forall (fun row => 2 <= count ","%char row) (r :: l)) as Hr
      by (by rewrite <- Hp).
    assert (Nat.eqb (count ","%char r) 1 = false) as ->.
    { apply Nat.eqb_neq. apply Forall_cons in Hr as [? _]. lia. }
    rewrite H3, CsvFacts.sorted_by_second_field_ok.
    2: { eapply Forall_impl; [exact Hr|]. unfold has_comma. intros; lia. }
    rewrite H2, <- Hs, PyFacts.sorted_by_idem.
    by rewrite WordlistFacts.set_files_insert_twice.
Qed.

Lemma sort_csv_idempotent_on_uniform_rows_witness :
  let data := lit " Full Name,Email " ++ nl ++ lit "zoe,z@x.org" ++ nl ++ nl ++
              lit " adam,a@x.org" ++ nl in
  exists w1,
    Utils.sort_csv (lit "list.csv") (csv_world (lit "list.csv") data) = (Return tt, w1) /\
    Utils.sort_csv (lit "list.csv") w1 = (Return tt, w1).
Proof.
  intros data.
  apply (sort_csv_idempotent_on_uniform_rows (lit "list.csv") _ data
           (lit " Full Name,Email " ++ nl)
           [lit "zoe,z@x.org" ++ nl; nl; lit " adam,a@x.org" ++ nl]).
  - reflexivity.
  - reflexivity.
  - vm_compute. discriminate.
  - left. vm_compute. repeat constructor.
Defined.

Module QRMore.
Import QRCodeGenerator.

(** What [save_to_free_path] does, by the loop that finds the path. *)
Lemma save_to_free_path_adds P filename extension image_format qr_image w :
  exists qr_image_path,
    save_to_free_path P filename extension image_format qr_image w =
      (Return qr_image_path,
       set_files (insert qr_image_path (Picture image_format qr_image)) w) /\
    files w !! qr_image_path = None.
Proof.
  unfold save_to_free_path, bind.
  pose proof (QRFacts.free_path_spec P filename extension (S (size (files w)))
                (plain_path P filename extension) 1 w) as H.
  destruct (free_path _ P filename extension _ 1 w) as [[path| | |] w']; try done.
  - destruct H as (-> & Hfree & _). by exists path.
  - destruct H as [H|H]; [|done].
    rewrite Nat.sub_succ, Nat.sub_0_r in H.
    by apply QRFacts.candidates_not_all_exist in H.
Qed.

Lemma keeps_extension_menu : keeps_files extension_menu.
Proof. unfold extension_menu. FlowFacts.keeps. Qed.

Lemma keeps_ask_extension fuel : keeps_files (ask_extension fuel).
Proof.
  induction fuel as [|fuel IH]; [by intros w|].
  cbn [ask_extension]. apply FlowFacts.keeps_bind; [apply keeps_extension_menu|].
  intros [chosen|]; [apply FlowFacts.keeps_ret | apply IH].
Qed.

(** [save_image] writes one new file when it returns and none otherwise. *)
Lemma save_image_outcome P qr_image w r w' :
  save_image P qr_image w = (r, w') ->
  match r with
  | Return qr_image_path =>
      files w !! qr_image_path = None /\
      exists image_format,
        files w' = <[qr_image_path := Picture image_format qr_image]> (files w)
  | _ => files w' = files w
  end.
Proof.
  unfold save_image, bind at 1.
  pose proof (FlowFacts.keeps_try_only (text <- input ;; ret (strip text))
                is_KeyboardInterrupt (exit 1)
                (FlowFacts.keeps_bind _ _ FlowFacts.keeps_input
                   (fun v => FlowFacts.keeps_ret _))
                (FlowFacts.keeps_exit 1) w) as Hk1.
  destruct (try_except _ _ w) as [[filename| | |] w1]; cbn [snd] in Hk1;
    try (intros [= <- <-]; done).
  destruct (re_search_forbidden filename); [intros [= <- <-]; done|].
  cbv zeta. unfold bind at 1.
  pose proof (keeps_ask_extension (S (length (stdin w1))) w1) as Hk2.
  destruct (ask_extension _ w1) as [[[extension image_format]| | |] w2];
    cbn [snd] in Hk2; try (intros [= <- <-]; congruence).
  destruct (save_to_free_path_adds P
              (if negb (truthy filename) then lit "qrcode" else filename)
              extension image_format qr_image w2) as (path & -> & Hfree).
  intros [= <- <-]. cbn [files set_files]. rewrite Hk2, Hk1 in *.
  split; [done|]. by exists image_format.
Qed.

End QRMore.


(** The text [get_text] hands to the QR code is never blank and carries no
    white space at its ends: it is its own strip. *)
Theorem get_text_is_stripped (w w' : world) (input_text : str) :
  QRCodeGenerator.get_text w = (Return input_text, w') ->
  input_text <> [] /\ strip input_text = input_text /\ files w' = files w.
Proof.
  intros H. pose proof (FlowFacts.keeps_get_text w) as Hk.
  rewrite H in Hk. cbn [snd] in Hk.
  revert H. unfold QRCodeGenerator.get_text, bind.
  destruct (QRCodeGenerator.read_text_lines (stdin w) [] 0) as [[text_lines| | |] rest];
    try done.
  rewrite PyFacts.strip_idem.
  destruct (bool_decide (strip (join nl text_lines) = [])) eqn:E; [done|].
  intros [= <- <-]. apply bool_decide_eq_false in E.
  split; [done|]. split; [apply PyFacts.strip_idem | done].
Qed.

Lemma get_text_is_stripped_witness :
  let w := typing [lit "  https://cyberelites.org  "; lit ""; lit ""] in
  lit "https://cyberelites.org" <> [] /\
  strip (lit "https://cyberelites.org") = lit "https://cyberelites.org" /\
  files (typing []) = files w.
Proof.
  intros w.
  apply (get_text_is_stripped w (typing []) (lit "https://cyberelites.org")).
  reflexivity.
Defined.

Module ListdirFacts.

(** A name listed by [os_listdir] is the name of a file of the directory. *)
Lemma os_listdir_member directory w name :
  match os_listdir directory w with
  | (Return listing, _) =>
      name ∈ listing ->
      is_Some (files w !! (directory ++ lit "/" ++ name)) /\
      contains "/"%char name = false
  | _ => True
  end.
Proof.
  unfold os_listdir. intros Hin.
  apply list_elem_of_omap in Hin as (path & Hpath & Hname).
  apply list_elem_of_In, in_map_iff in Hpath as ([path' c] & <- & Hpc).
  apply list_elem_of_In, elem_of_map_to_list in Hpc. cbn [fst] in Hname.
  destruct (startswith (directory ++ lit "/") path') eqn:Hs; [|done].
  destruct (contains "/"%char (drop (length (directory ++ lit "/")) path')) eqn:Hc;
    [done|].
  injection Hname as <-. split; [|done].
  apply bool_decide_eq_true in Hs.
  rewrite app_assoc, <- Hs, take_drop. eauto.
Qed.

End ListdirFacts.

(** ** The loop of [send_bulk_emails] as a whole *)

Module BulkFacts.
Import EmailSender.

Lemma not_Exception e : is_Exception e = false -> ends_the_run e = true.
Proof. by destruct e. Qed.

Lemma only_logs_files w w' : only_logs w w' -> files w' = files w.
Proof. by intros [l ->]. Qed.

(** [send_email] returns or ends the run with status 1; no exception
    leaves it. *)
Lemma send_email_outcome C recipient_email name subject body attached w :
  exists w', files w' = files w /\
    (send_email C recipient_email name subject body attached w = (Return tt, w')
     \/ send_email C recipient_email name subject body attached w = (Exit 1, w')).
Proof.
  destruct (EmailFacts.build_message_outcome C recipient_email subject body attached w)
    as (w1 & Hlogs & [[msg Hb] | (e & Hb & He & Hr)]).
  - rewrite (EmailFacts.send_email_built _ _ _ _ _ _ _ _ _ Hb).
    pose proof (only_logs_files _ _ Hlogs) as Hf.
    destruct (smtp w1 (smtp_calls w1)) as [|e].
    + eexists. split; [|by left]. done.
    + destruct (ends_the_run e).
      * eexists. split; [|by right]. done.
      * eexists. split; [|by left]. done.
  - rewrite (EmailFacts.send_email_not_built _ _ _ _ _ _ _ _ _ Hb He Hr).
    eexists. split; [|by left]. cbn. by apply only_logs_files.
Qed.

Section WithReader.
Variable DictReader : str -> option (list str) * list row.

Lemma row_attachments_cases C common_attachments r name w :
  (exists attached, row_attachments C common_attachments r name w = (Return attached, w))
  \/ row_attachments C common_attachments r name w = (Raise NameError, w)
  \/ row_attachments C common_attachments r name w = (Exit 1, w).
Proof.
  unfold row_attachments. repeat case_bool_decide.
  - destruct (field_truthy _); left; by eexists.
  - destruct common_attachments; [left; by eexists | right; by left].
  - left; by eexists.
  - left; by eexists.
  - right; by right.
Qed.

Lemma process_row_outcome C body_template common_attachments row_index r w :
  forall res w',
    process_row C body_template common_attachments row_index r w = (res, w') ->
    files w' = files w /\ ((exists row_index', res = Return row_index') \/ res = Exit 1).
Proof.
  intros res w'. unfold process_row, try_except.
  destruct (get r Email) as [email|]; [destruct (get r Full_Name) as [full_name|]|].
  - unfold bind at 1.
    destruct (row_attachments_cases C common_attachments r
                (strip (title full_name)) w) as [[attached ->] | [-> | ->]].
    + unfold bind.
      destruct (send_email_outcome C (strip (lower email)) (strip (title full_name))
                  (EMAIL_SUBJECT C)
                  (replace_str (lit "{{name}}") (strip (title full_name)) body_template)
                  attached w) as (w1 & Hf & [-> | ->]).
      * intros [= <- <-]. split; [done|]. left. by eexists.
      * intros [= <- <-]. split; [done|]. by right.
    + cbn. intros [= <- <-]. split; [done|]. left. by eexists.
    + intros [= <- <-]. split; [done|]. by right.
  - cbn. intros [= <- <-]. split; [done|]. left. by eexists.
  - cbn. intros [= <- <-]. split; [done|]. left. by eexists.
Qed.

Lemma process_rows_outcome C body_template common_attachments rows :
  forall row_index w res w',
    process_rows C body_template common_attachments row_index rows w = (res, w') ->
    files w' = files w /\ (res = Return tt \/ res = Exit 1).
Proof.
  induction rows as [|r rows IH]; intros row_index w res w'; cbn [process_rows].
  - intros [= <- <-]. split; [done|]. by left.
  - unfold bind.
    destruct (process_row C body_template common_attachments row_index r w)
      as [res1 w1] eqn:H1.
    apply process_row_outcome in H1 as [Hf1 [[row_index' ->] | ->]].
    + intros H2. apply IH in H2 as [Hf2 H2]. split; [congruence|done].
    + intros [= <- <-]. split; [done|]. by right.
Qed.

(** One row in mode [None], taken by the server. *)
Lemma process_row_delivered C body_template common_attachments row_index r w :
  ATTACHMENT_MODE C = NoAttachments ->
  called_by_automation C = false ->
  addressed_row r ->
  smtp w (smtp_calls w) = Delivered ->
  process_row C body_template common_attachments row_index r w =
  (Return (S row_index), after_sending [mail_for C body_template r] w).
Proof.
  intros Hmode Hauto [[email He] [full_name Hn]] Hsmtp.
  unfold process_row, try_except, mail_for. rewrite He, Hn. cbn [default].
  unfold bind at 1, row_attachments. rewrite Hmode.
  rewrite (bool_decide_eq_false_2 (NoAttachments = Respective)) by done.
  rewrite (bool_decide_eq_false_2 (NoAttachments = Common)) by done.
  rewrite (bool_decide_eq_false_2 (NoAttachments = Other)) by done.
  rewrite (bool_decide_eq_true_2 (NoAttachments = NoAttachments)) by done.
  cbn [ret]. unfold bind at 1.
  erewrite EmailFacts.send_email_built;
    [|unfold build_message; rewrite Hauto; reflexivity].
  rewrite Hsmtp. cbn [ret]. unfold after_sending, add_log, add_mail, next_smtp.
  cbn. by rewrite Nat.add_1_r.
Qed.

Lemma after_sending_cons m mails w :
  after_sending mails (after_sending [m] w) = after_sending (m :: mails) w.
Proof.
  unfold after_sending. cbn. rewrite <- !app_assoc. cbn.
  f_equal. lia.
Qed.

Lemma process_rows_delivered C body_template common_attachments rows :
  ATTACHMENT_MODE C = NoAttachments ->
  called_by_automation C = false ->
  Forall addressed_row rows ->
  forall row_index w,
    (forall i, i < length rows -> smtp w (smtp_calls w + i) = Delivered) ->
    process_rows C body_template common_attachments row_index rows w =
    (Return tt, after_sending (map (mail_for C body_template) rows) w).
Proof.
  intros Hmode Hauto. induction 1 as [|r rows Hr Hrows IH]; intros row_index w Hsmtp.
  - cbn. unfold after_sending. cbn. rewrite !app_nil_r, Nat.add_0_r. by destruct w.
  - cbn [process_rows map]. unfold bind.
    rewrite process_row_delivered; [|done|done|done|].
    + rewrite IH; [by rewrite after_sending_cons|].
      intros i Hi. cbn. rewrite Nat.add_1_r. cbn.
      rewrite <- Nat.add_succ_r. apply Hsmtp. cbn. lia.
    + rewrite <- (Nat.add_0_r (smtp_calls w)). apply Hsmtp. cbn. lia.
Qed.

End WithReader.
End BulkFacts.


(** In mode [None], run by hand, with the template and the CSV file
    readable, every row holding a name and an address, and the server
    taking every message: [send_bulk_emails] sends one message for each row
    in the order of the rows, to the address of the row in lower case, with
    the name of the row in title case put into the template, and logs each
    of them. *)
Theorem send_bulk_emails_delivers_every_row
    (DictReader : str -> option (list str) * list EmailSender.row)
    (C : EmailSender.config) (csv_file_path body_template_file : str)
    (body_template data : str) (w : world) :
  EmailSender.ATTACHMENT_MODE C = EmailSender.NoAttachments ->
  EmailSender.called_by_automation C = false ->
  files w !! body_template_file = Some (Text body_template) ->
  files w !! csv_file_path = Some (Text data) ->
  Forall addressed_row (snd (DictReader data)) ->
  (forall i, i < length (snd (DictReader data)) ->
             smtp w (smtp_calls w + i) = Delivered) ->
  EmailSender.send_bulk_emails DictReader C csv_file_path body_template_file w =
  (Return tt,
   after_sending (map (mail_for C body_template) (snd (DictReader data))) w).
Proof.
  intros Hmode Hauto Hbody Hcsv Hrows Hsmtp.
  unfold EmailSender.send_bulk_emails, try_except at 1, bind at 1,
    EmailSender.read_email_body_template, try_except at 1, read_text at 1.
  rewrite Hbody. unfold bind at 1, read_text. rewrite Hcsv.
  by rewrite BulkFacts.process_rows_delivered.
Qed.

Lemma send_bulk_emails_delivers_every_row_witness :
  let C := email_config EmailSender.NoAttachments in
  let data := lit "Full Name,Email" ++ nl ++ lit "ann lee,Ann@X.org" ++ nl
              ++ lit "bob ray,bob@x.org" ++ nl in
  let w := email_world data (fun _ => Delivered) in
  EmailSender.send_bulk_emails EmailSender.plain_DictReader C
    (lit "Email_Sender/Spreadsheet/list.csv")
    (lit "Email_Sender/body_template.html") w =
  (Return tt,
   after_sending
     [Mail (lit "ann@x.org") (lit "Subject") (lit "<p>Hello Ann Lee</p>") [];
      Mail (lit "bob@x.org") (lit "Subject") (lit "<p>Hello Bob Ray</p>") []] w).
Proof.
  intros C data w.
  refine (send_bulk_emails_delivers_every_row EmailSender.plain_DictReader C
            (lit "Email_Sender/Spreadsheet/list.csv")
            (lit "Email_Sender/body_template.html")
            (lit "<p>Hello {{name}}</p>") data w _ _ _ _ _ _).
  - reflexivity.
  - reflexivity.
  - reflexivity.
  - reflexivity.
  - repeat constructor; vm_compute; eauto.
  - intros i _. reflexivity.
Defined.
(** ** [read_wordlist] of utils.py *)

(** [read_wordlist] of utils.py accepts a readable wordlist exactly when it
    holds a name and none of its names holds a forbidden character: it then
    returns the names in title case and sorted; an empty wordlist and a
    name with one of the characters end the run with status 1. *)
Theorem utils_read_wordlist_accepts_iff (file_path : str) (w : world) (data : str) :
  files w !! file_path = Some (Text data) ->
  (names_of data <> [] /\
   Forall (fun name => has_forbidden_char name = false) (names_of data) ->
   fst (Utils.read_wordlist file_path w) = Return (names_of data)) /\
  (names_of data = [] \/
   Exists (fun name => has_forbidden_char name = true) (names_of data) ->
   fst (Utils.read_wordlist file_path w) = Exit 1).
Proof.
  intros Hf. unfold Utils.read_wordlist, bind.
  rewrite (WordlistFacts.sort_wordlist_text _ _ _ Hf).
  change (existsb _ (names_of data))
    with (existsb has_forbidden_char (names_of data)).
  destruct (existsb has_forbidden_char (names_of data)) eqn:He.
  - split; [|done]. intros [_ Hall]. exfalso.
    apply existsb_exists in He as (name & Hin & Hc).
    apply list_elem_of_In in Hin.
    rewrite Forall_forall in Hall. specialize (Hall _ Hin). congruence.
  - destruct (decide (names_of data = [])) as [E|E].
    + rewrite E. split; [by intros [? _]|done].
    + rewrite bool_decide_eq_true_2 by done. split; [done|].
      intros [?|Hex]; [done|]. exfalso.
      apply Exists_exists in Hex as (name & Hin & Hc).
      assert (existsb has_forbidden_char (names_of data) = true); [|congruence].
      apply existsb_exists. exists name. split; [by apply list_elem_of_In|done].
Qed.

Lemma utils_read_wordlist_accepts_iff_witness :
  fst (Utils.read_wordlist (lit "Wordlist/wordlist.txt")
         (certificate_world (lit "zoe" ++ nl ++ nl ++ lit " adam smith" ++ nl)))
    = Return [lit "Adam Smith"; lit "Zoe"] /\
  fst (Utils.read_wordlist (lit "Wordlist/wordlist.txt")
         (certificate_world (lit "zoe" ++ nl ++ lit "a/b" ++ nl))) = Exit 1.
Proof.
  split.
  - refine (proj1 (utils_read_wordlist_accepts_iff (lit "Wordlist/wordlist.txt")
                     (certificate_world (lit "zoe" ++ nl ++ nl ++ lit " adam smith" ++ nl))
                     (lit "zoe" ++ nl ++ nl ++ lit " adam smith" ++ nl) _) _);
      [reflexivity|].
    split; [done|]. repeat constructor.
  - refine (proj2 (utils_read_wordlist_accepts_iff (lit "Wordlist/wordlist.txt")
                     (certificate_world (lit "zoe" ++ nl ++ lit "a/b" ++ nl))
                     (lit "zoe" ++ nl ++ lit "a/b" ++ nl) _) _); [reflexivity|].
    right. apply Exists_cons_hd. reflexivity.
Defined.
(** ** The certificate flow when a file is missing *)

Module CertEdges.
Import CertificateGenerator.

Lemma for_each_name_no_names P lines w :
  certificate_names lines = [] -> for_each_name P lines w = (Return tt, w).
Proof.
  unfold certificate_names.
  induction lines as [|line lines IH]; [done|].
  cbn [map for_each_name]. rewrite filter_cons.
  destruct (truthy (strip line)) eqn:E; cbn [negb].
  - by rewrite decide_True by done.
  - rewrite decide_False by (by intros []). apply IH.
Qed.

Lemma write_certificate_no_template P name w :
  files w !! template_file_path P = None ->
  tmp_file P <> template_file_path P ->
  write_certificate P name w =
  (Raise FileNotFoundError, set_files (insert (tmp_file P) (Overlay name)) w).
Proof.
  intros Ht Hne. unfold write_certificate, bind, write_file, modify, read_bytes.
  cbn [files set_files]. rewrite lookup_insert_eq. cbn [files set_files].
  by rewrite lookup_insert_ne, Ht.
Qed.

Lemma for_each_name_no_template P lines w name rest :
  files w !! template_file_path P = None ->
  tmp_file P <> template_file_path P ->
  certificate_names lines = name :: rest ->
  for_each_name P lines w =
  (Raise FileNotFoundError, set_files (insert (tmp_file P) (Overlay name)) w).
Proof.
  intros Ht Hne. unfold certificate_names.
  induction lines as [|line lines IH]; [done|].
  cbn [map for_each_name]. rewrite filter_cons.
  destruct (truthy (strip line)) eqn:E; cbn [negb].
  - rewrite decide_True by done. intros [= -> _]. unfold bind.
    by rewrite write_certificate_no_template.
  - rewrite decide_False by (by intros []). apply IH.
Qed.

End CertEdges.

(** With the font in place, a wordlist that is missing, or that holds only
    blank lines, makes [create_certificate] return without a certificate:
    no file is written, and the template is not even opened. *)
Theorem create_certificate_without_names
    (P : CertificateGenerator.paths) (w : world) :
  is_Some (files w !! CertificateGenerator.font_path P) ->
  (files w !! CertificateGenerator.wordlist_file_path P = None \/
   exists data,
     files w !! CertificateGenerator.wordlist_file_path P = Some (Text data) /\
     Forall (fun line => strip line = []) (readlines data)) ->
  CertificateGenerator.create_certificate P w = (Return tt, w).
Proof.
  intros [f Hf] Hw.
  unfold CertificateGenerator.create_certificate, bind at 1, read_bytes.
  rewrite Hf. unfold bind, CertificateGenerator.read_wordlist, try_except, bind, read_text.
  destruct Hw as [-> | (data & -> & Hblank)]; [done|]. cbn [ret].
  apply CertEdges.for_each_name_no_names. unfold certificate_names.
  induction Hblank as [|line lines Hl _ IH]; [done|].
  cbn [map]. rewrite filter_cons, Hl. cbn [truthy].
  by rewrite decide_False by (by intros []).
Qed.

Lemma create_certificate_without_names_witness :
  let w := World {[ lit "Fonts/font.ttf" := Binary (lit "ttf");
                    lit "Wordlist/wordlist.txt" := Text (nl ++ lit "  " ++ nl) ]}
                 [] [] [] (fun _ => Delivered) 0 in
  CertificateGenerator.create_certificate certificate_layout w = (Return tt, w).
Proof.
  intros w. apply create_certificate_without_names.
  - vm_compute. eauto.
  - right. exists (nl ++ lit "  " ++ nl). split; [reflexivity|].
    repeat constructor.
Defined.

(** When the template is missing and the wordlist holds a name, the run
    stops at the first name with [FileNotFoundError]: the temporary overlay
    of that name is the only file written, and no certificate is made. *)
Theorem create_certificate_without_template
    (P : CertificateGenerator.paths) (w : world) (data name : str) (rest : list str) :
  is_Some (files w !! CertificateGenerator.font_path P) ->
  files w !! CertificateGenerator.wordlist_file_path P = Some (Text data) ->
  files w !! CertificateGenerator.template_file_path P = None ->
  CertificateGenerator.tmp_file P <> CertificateGenerator.template_file_path P ->
  certificate_names (readlines data) = name :: rest ->
  CertificateGenerator.create_certificate P w =
  (Raise FileNotFoundError,
   set_files (insert (CertificateGenerator.tmp_file P) (Overlay name)) w).
Proof.
  intros [f Hf] Hw Ht Hne Hnames.
  unfold CertificateGenerator.create_certificate, bind at 1, read_bytes.
  rewrite Hf. unfold bind, CertificateGenerator.read_wordlist, try_except, bind, read_text.
  rewrite Hw. cbn [ret]. by eapply CertEdges.for_each_name_no_template.
Qed.

Lemma create_certificate_without_template_witness :
  let data := nl ++ lit " zoe " ++ nl ++ lit "adam" ++ nl in
  let w := World {[ lit "Fonts/font.ttf" := Binary (lit "ttf");
                    lit "Wordlist/wordlist.txt" := Text data ]}
                 [] [] [] (fun _ => Delivered) 0 in
  CertificateGenerator.create_certificate certificate_layout w =
  (Raise FileNotFoundError,
   set_files (insert (lit "tmp/tmp_certificate.pdf") (Overlay (lit "zoe"))) w).
Proof.
  intros data w.
  apply (create_certificate_without_template certificate_layout w data
           (lit "zoe") [lit "adam"]).
  - vm_compute. eauto.
  - reflexivity.
  - reflexivity.
  - apply (bool_decide_unpack _). vm_compute. exact I.
  - reflexivity.
Defined.
(** ** [get_files] and [get_single_file] *)

Module SingleFileFacts.

(** The listing of a directory names every file that lies directly in it. *)
Lemma os_listdir_complete directory w name :
  is_Some (files w !! (directory ++ lit "/" ++ name)) ->
  contains "/"%char name = false ->
  exists listing, os_listdir directory w = (Return listing, w) /\ name ∈ listing.
Proof.
  intros [c Hc] Hn. unfold os_listdir. eexists. split; [done|].
  apply list_elem_of_omap. exists (directory ++ lit "/" ++ name). split.
  - apply list_elem_of_In, in_map_iff. exists (directory ++ lit "/" ++ name, c).
    split; [done|]. by apply list_elem_of_In, elem_of_map_to_list.
  - rewrite (app_assoc directory), CertFacts.startswith_app.
    by rewrite drop_app_length, Hn.
Qed.

Lemma get_files_listing directory extension w :
  exists listing,
    os_listdir directory w = (Return listing, w) /\
    Utils.get_files directory extension w =
    (Return (filter (fun file => endswith (lit "." ++ lower extension) file) listing), w).
Proof.
  unfold Utils.get_files, bind, try_except, os_listdir. eexists. by split.
Qed.

Lemma filter_nil_none {A} (P : A -> bool) (l : list A) x :
  filter (fun y => P y) l = [] -> x ∈ l -> P x = false.
Proof.
  induction l as [|y l IH]; intros Hf Hx; [by apply not_elem_of_nil in Hx|].
  rewrite filter_cons in Hf. destruct (P y) eqn:E.
  - by rewrite decide_True in Hf by done.
  - rewrite decide_False in Hf by (by intros []).
    apply elem_of_cons in Hx as [->|Hx]; [done|by apply IH].
Qed.

(** The files [get_files] finds once a new file is in the directory. *)
Lemma get_files_insert directory extension w name c found :
  files w !! (directory ++ lit "/" ++ name) = None ->
  contains "/"%char name = false ->
  endswith (lit "." ++ lower extension) name = true ->
  Utils.get_files directory extension w = (Return found, w) ->
  exists found',
    Utils.get_files directory extension
      (set_files (insert (directory ++ lit "/" ++ name) c) w) =
    (Return found', set_files (insert (directory ++ lit "/" ++ name) c) w) /\
    Permutation found' (name :: found).
Proof.
  intros Hnone Hn He.
  unfold Utils.get_files, bind, try_except, os_listdir. cbn [files set_files ret].
  intros [= <-]. eexists. split; [done|].
  rewrite (map_to_list_insert (files w)) by done.
  cbn [map omap list_omap fst]. rewrite (app_assoc directory), CertFacts.startswith_app.
  rewrite drop_app_length, Hn. cbn [omap list_omap].
  rewrite filter_cons. by rewrite decide_True by (by rewrite He).
Qed.

End SingleFileFacts.


(** In a directory without a TXT file, [get_single_file] asked for a TXT
    file creates an empty [wordlist.txt] there and ends the run with status
    1; run again, it returns that file. *)
Theorem get_single_file_creates_wordlist (directory : str) (w : world) :
  truthy directory = true ->
  endswith (lit "/") directory = false ->
  fst (Utils.get_files directory (lit "TXT") w) = Return [] ->
  let w1 := set_files (insert (directory ++ lit "/wordlist.txt") (Text [])) w in
  UtilsChecks.get_single_file directory (lit "TXT") w = (Exit 1, w1) /\
  UtilsChecks.get_single_file directory (lit "TXT") w1 =
    (Return (lit "wordlist.txt"), w1).
Proof.
  intros Hd Hslash Hnone w1.
  destruct (SingleFileFacts.get_files_listing directory (lit "TXT") w)
    as (listing & Hl & Hg).
  assert (filter (fun file => endswith (lit "." ++ lower (lit "TXT")) file) listing
          = []) as Hfilter
    by (rewrite Hg in Hnone; cbn [fst] in Hnone; congruence).
  rewrite Hfilter in Hg.
  assert (os_path_join directory (lit "wordlist.txt")
          = directory ++ lit "/" ++ lit "wordlist.txt") as Hjoin.
  { unfold os_path_join. change (startswith _ (lit "wordlist.txt")) with false.
    by rewrite Hd, Hslash. }
  assert (files w !! (directory ++ lit "/" ++ lit "wordlist.txt") = None) as Hfree.
  { destruct (files w !! _) eqn:E; [|done]. exfalso.
    destruct (SingleFileFacts.os_listdir_complete directory w (lit "wordlist.txt"))
      as (listing' & Hl' & Hin); [by rewrite E|done|].
    rewrite Hl in Hl'. injection Hl' as <-.
    by pose proof (SingleFileFacts.filter_nil_none _ _ _ Hfilter Hin). }
  split.
  - unfold UtilsChecks.get_single_file, bind at 1. rewrite Hg.
    rewrite bool_decide_eq_true_2 by done. by rewrite Hjoin.
  - destruct (SingleFileFacts.get_files_insert directory (lit "TXT") w
                (lit "wordlist.txt") (Text []) [] Hfree eq_refl eq_refl Hg)
      as (found' & Hg' & Hperm).
    apply Permutation_singleton_r in Hperm. subst found'.
    unfold UtilsChecks.get_single_file, bind. fold w1 in Hg'.
    change (directory ++ lit "/wordlist.txt")
      with (directory ++ lit "/" ++ lit "wordlist.txt") in w1.
    subst w1. by rewrite Hg'.
Qed.

Lemma get_single_file_creates_wordlist_witness :
  let w := World {[ lit "Wordlist/notes.md" := Text (lit "x");
                    lit "Wordlist/old/names.txt" := Text (lit "y") ]}
                 [] [] [] (fun _ => Delivered) 0 in
  let w1 := set_files (insert (lit "Wordlist/wordlist.txt") (Text [])) w in
  UtilsChecks.get_single_file (lit "Wordlist") (lit "TXT") w = (Exit 1, w1) /\
  UtilsChecks.get_single_file (lit "Wordlist") (lit "TXT") w1 =
    (Return (lit "wordlist.txt"), w1).
Proof.
  intros w.
  apply (get_single_file_creates_wordlist (lit "Wordlist") w).
  - reflexivity.
  - reflexivity.
  - vm_compute. reflexivity.
Defined.
(** ** The attachments of a message *)

Module AttachFacts.
Import EmailSender.

Lemma attach_all_spec C items : forall msg w,
  attach_all C items msg w =
  (Return (Mail (mail_to msg) (mail_subject msg) (mail_body msg)
             (mail_attachments msg ++ omap (attachment_of C (files w)) items)),
   World (files w) (stdin w)
     (log w ++ map (fun p => LogAttachmentNotFound (attachment_file C p))
                   (filter (fun p => missing_attachment C (files w) p) items))
     (outbox w) (smtp w) (smtp_calls w)).
Proof.
  induction items as [|item items IH]; intros msg w.
  - cbn. rewrite !app_nil_r. by destruct msg, w.
  - cbn [attach_all omap list_omap]. rewrite filter_cons.
    unfold attachment_of at 1.
    destruct (truthy (strip item)) eqn:Et.
    + unfold bind, add_attachment, try_except, bind, read_bytes.
      fold (attachment_file C item).
      destruct (files w !! strip (attachment_file C item)) as [data|] eqn:E;
        cbn [fmap option_fmap option_map ret].
      * rewrite decide_False
          by (unfold missing_attachment; rewrite Et, E; by intros []).
        rewrite IH. cbn. by rewrite <- app_assoc.
      * rewrite decide_True by (unfold missing_attachment; by rewrite Et, E).
        cbn. rewrite IH. cbn. by rewrite <- app_assoc.
    + rewrite decide_False by (unfold missing_attachment; rewrite Et; by intros []).
      apply IH.
Qed.

End AttachFacts.


